(** * AutoFocus connector: a shallow embedding of [autofocus_connector.py]

    The connector is a sequence of calls to the vendor client
    ([pan.afapi]) shaped into the action handlers of the host platform
    ([phantom]).  The vendor service is an oracle ([AFapi]) whose calls may
    raise and whose replies are JSON values of any shape; the host objects
    ([BaseConnector], [ActionResult]) live in a store threaded through a
    state-and-exception monad, so that an [ActionResult] handed to the
    connector with [add_action_result] and mutated afterwards is one shared
    object.  Strings are texts in UTF-8. *)

From Stdlib Require Import ZArith Ascii.
From stdpp Require Import gmap strings list fin_maps pretty.

Open Scope string_scope.
Open Scope list_scope.

Set Warnings "-clear-no-such-hyp".

(** ** Values *)

(** JSON values: the search request body is built from them, and
    [r.json] of a response is one ([JNull] when the reply is not JSON).
    [JFloat m e] is the number m times ten to the e. *)
#[warnings="-register-all"]
Inductive json : Type :=
| JNull
| JBool (b : bool)
| JInt (z : Z)
| JFloat (m e : Z)
| JStr (s : string)
| JList (l : list json)
| JDict (d : gmap string json).

(** Lowering of the letters A-Z.  [str.lower] itself lowers every cased
    letter and is a parameter of the interpreter ([str_lower] below); on
    ASCII text it is this function. *)
Definition ascii_lower (c : ascii) : ascii :=
  let n := nat_of_ascii c in
  if (65 <=? n)%nat && (n <=? 90)%nat then ascii_of_nat (n + 32) else c.

Fixpoint lower_ascii (s : string) : string :=
  match s with
  | EmptyString => EmptyString
  | String c s' => String (ascii_lower c) (lower_ascii s')
  end.

(** A text of ASCII characters only: every byte is below 128. *)
Fixpoint is_ascii_text (s : string) : bool :=
  match s with
  | EmptyString => true
  | String c s' => (nat_of_ascii c <? 128)%nat && is_ascii_text s'
  end.

(** A format string with one positional argument, parsed: literal text
    and replacement fields ([{0}], or a single [{}]). *)
Inductive fmt_piece : Type :=
| Lit (s : string)
| Field.

Global Instance fmt_piece_eq_dec : EqDecision fmt_piece.
Proof. solve_decision. Defined.

Fixpoint format (template : list fmt_piece) (arg : string) : string :=
  match template with
  | [] => ""
  | Lit s :: rest => s ++ format rest arg
  | Field :: rest => arg ++ format rest arg
  end.

(** [needle in haystack] on strings. *)
Definition contains (haystack needle : string) : Prop :=
  ∃ pre post : string, haystack = pre +:+ needle +:+ post.

(** The same as a function: some suffix of the haystack starts with the
    needle. *)
Fixpoint contains_b (haystack needle : string) : bool :=
  String.prefix needle haystack
  || match haystack with
     | EmptyString => false
     | String _ rest => contains_b rest needle
     end.

(** ** The host platform ([phantom]) *)

Module phantom.

Definition APP_SUCCESS : bool := true.
Definition APP_ERROR : bool := false.
Definition is_fail (ret_val : bool) : bool := negb ret_val.

End phantom.
Import phantom.

(** ** Exceptions *)

Inductive exception : Type :=
| KeyError (key : string)      (* a dict without the key *)
| TypeError                    (* a subscript on what is not a dict *)
| ClientError (e : string).    (* raised by a call of the vendor client *)

Inductive outcome (A : Type) : Type :=
| Returned (a : A)
| Raised (e : exception).
Arguments Returned {A} _.
Arguments Raised {A} _.

Global Instance outcome_ret : MRet outcome := λ A a, Returned a.

Global Instance outcome_bind : MBind outcome := λ A B k m,
  match m with
  | Returned a => k a
  | Raised e => Raised e
  end.

(** [j[key]] with a string key, on a JSON value: [KeyError] on a dict
    without the key, [TypeError] on anything that is not a dict. *)
Definition subscript (j : json) (key : string) : outcome json :=
  match j with
  | JDict d =>
      match d !! key with
      | Some v => Returned v
      | None => Raised (KeyError key)
      end
  | _ => Raised TypeError
  end.

(** ** Replies of the vendor service *)

(** A response object: [raise_for_status()] raises [e] when the field is
    [Some e] (a status that is not 2xx) and returns otherwise; [resp_json]
    is the attribute [r.json]. *)
Record Response (J : Type) : Type := {
  raise_for_status : option string;
  resp_json : J
}.
Arguments raise_for_status {J} _.
Arguments resp_json {J} _.

(** A search hit [i]: [i['_source']] carries a ['tag'] list or none. *)
Record Hit : Type := { source_tag : option (list string) }.

(** [samples_search_results] is a generator of response pages, consumed
    once; [r.json['hits']] of each page is a list of hits.  Whatever is
    raised inside the [try] block, by the generator or by reading a page,
    ends the stream: [failure] is [Some (str e)] then. *)
Record SearchResults : Type := {
  pages : list (list Hit);
  failure : option string
}.

(** The vendor client [pan.afapi.PanAFapi]: the constructor may raise;
    the search is a stream that may fail; [tag] and [export] hand back a
    response object or raise. *)
Record AFapi : Type := {
  PanAFapi : string → option string;     (* the constructor raises [e]: [Some e] *)
  samples_search_results : json → SearchResults;
  tag : string → outcome (Response json);
  export : outcome (Response json)
}.

(** What a run depends on besides its parameters: the vendor service and
    the interpreter, namely the order in which it iterates over a set,
    [str.lower], and the text [str.format] inserts for a value.  Of
    [str.lower] the development uses what it does to ASCII text, and of the
    formatting that an integer is written in decimal. *)
Record World : Type := {
  afapi : AFapi;
  set_iter : gset string → list string;
  str_lower : string → string;
  str_of : json → string;
  str_lower_ascii : ∀ s : string, is_ascii_text s = true → str_lower s = lower_ascii s;
  str_of_int : ∀ z : Z, str_of (JInt z) = pretty z
}.

(** Iterating over a set visits each of its elements once. *)
Definition set_iter_ok (w : World) : Prop :=
  ∀ s : gset string, set_iter w s ≡ₚ elements s.

(** ** The store: [ActionResult] objects and the connector *)

(** The dict [tag_data] built per tag. *)
Record TagRecord : Type := {
  description : json;
  tag_name : json;
  public_tag_name : json;
  count : json
}.

Inductive data_item : Type :=
| TagData (tag_data : TagRecord)     (* added by the hunt actions *)
| ReportData (j : json).             (* added by get_report: [r.json] as it is *)

Record ActionResult : Type := {
  ar_param : gmap string string;
  ar_status : bool;
  ar_message : string;
  ar_data : list data_item;
  ar_summary : gmap string Z
}.

(** [ActionResult(param)]: no data, empty summary, status not yet a
    success. *)
Definition ActionResult_init (param : gmap string string) : ActionResult :=
  {| ar_param := param; ar_status := APP_ERROR; ar_message := "";
     ar_data := []; ar_summary := ∅ |}.

Global Instance ActionResult_inhabited : Inhabited ActionResult :=
  populate (ActionResult_init ∅).

(** What the connector does that the outside can see, in order. *)
Inductive event : Type :=
| EvProgress (msg : string)                  (* save_progress *)
| EvStatus (status_code : bool) (msg : string) (* the connector's set_status *)
| EvPanAFapi (api_key : string)              (* the client is constructed *)
| EvSearch (body : json)                     (* remote: sample search and results *)
| EvTag (tagname : string)                   (* remote: tag detail *)
| EvExport.                                  (* remote: export *)

Definition is_remote_call (e : event) : bool :=
  match e with
  | EvSearch _ | EvTag _ | EvExport => true
  | _ => false
  end.

(** A reference to an [ActionResult] object: its index in the heap. *)
Definition ref : Type := nat.

Record Connector : Type := {
  config : gmap string string;
  action_identifier : string;
  status : bool;
  message : string;
  action_results : list ref;
  heap : list ActionResult;
  trace : list event
}.

Definition set_trace (f : list event → list event) (st : Connector) : Connector :=
  {| config := config st; action_identifier := action_identifier st;
     status := status st; message := message st;
     action_results := action_results st; heap := heap st;
     trace := f (trace st) |}.

Definition set_heap (f : list ActionResult → list ActionResult) (st : Connector)
  : Connector :=
  {| config := config st; action_identifier := action_identifier st;
     status := status st; message := message st;
     action_results := action_results st; heap := f (heap st);
     trace := trace st |}.

Definition set_action_results (f : list ref → list ref) (st : Connector) : Connector :=
  {| config := config st; action_identifier := action_identifier st;
     status := status st; message := message st;
     action_results := f (action_results st); heap := heap st;
     trace := trace st |}.

Definition set_conn_status (status_code : bool) (msg : string) (st : Connector)
  : Connector :=
  {| config := config st; action_identifier := action_identifier st;
     status := status_code; message := msg;
     action_results := action_results st; heap := heap st;
     trace := trace st |}.

(** ** The monad: state and exceptions *)

Definition M (A : Type) : Type := Connector → outcome A * Connector.

Global Instance M_ret : MRet M := λ A a st, (Returned a, st).

Global Instance M_bind : MBind M := λ A B k m st,
  match m st with
  | (Returned a, st') => k a st'
  | (Raised e, st') => (Raised e, st')
  end.

Definition raise {A : Type} (e : exception) : M A := λ st, (Raised e, st).

(** An expression without effects, evaluated in the store. *)
Definition lift {A : Type} (o : outcome A) : M A := λ st, (o, st).

Definition pass : M unit := mret ().

(** [d[key]] on a dict. *)
Definition getitem (d : gmap string string) (key : string) : M string :=
  match d !! key with
  | Some v => mret v
  | None => raise (KeyError key)
  end.

Definition log (e : event) : M unit := λ st, (Returned (), set_trace (.++ [e]) st).

(** *** [BaseConnector] *)

Definition get_config : M (gmap string string) := λ st, (Returned (config st), st).

Definition get_action_identifier : M string :=
  λ st, (Returned (action_identifier st), st).

Definition save_progress (msg : string) : M unit := log (EvProgress msg).

Definition set_status (status_code : bool) (msg : string) : M bool :=
  λ st, (Returned status_code,
         set_trace (.++ [EvStatus status_code msg]) (set_conn_status status_code msg st)).

Definition set_status_save_progress (status_code : bool) (msg : string) : M bool :=
  set_status status_code msg ;; save_progress msg ;; mret status_code.

Definition add_action_result (r : ref) : M ref :=
  λ st, (Returned r, set_action_results (.++ [r]) st).

(** *** [ActionResult] *)

Definition ActionResult_new (param : gmap string string) : M ref :=
  λ st, (Returned (length (heap st)), set_heap (.++ [ActionResult_init param]) st).

Definition ar_read {A : Type} (f : ActionResult → A) (r : ref) : M A :=
  λ st, (Returned (f (heap st !!! r)), st).

Definition ar_write (f : ActionResult → ActionResult) (r : ref) : M unit :=
  λ st, (Returned (), set_heap (alter f r) st).

Definition ar_set_status (r : ref) (status_code : bool) (msg : string) : M bool :=
  ar_write (λ ar, {| ar_param := ar_param ar; ar_status := status_code;
                     ar_message := msg; ar_data := ar_data ar;
                     ar_summary := ar_summary ar |}) r ;;
  mret status_code.

Definition ar_get_status : ref → M bool := ar_read ar_status.
Definition ar_get_message : ref → M string := ar_read ar_message.

Definition ar_add_data (r : ref) (item : data_item) : M unit :=
  ar_write (λ ar, {| ar_param := ar_param ar; ar_status := ar_status ar;
                     ar_message := ar_message ar; ar_data := ar_data ar ++ [item];
                     ar_summary := ar_summary ar |}) r.

Definition ar_get_data_size : ref → M Z := ar_read (λ ar, Z.of_nat (length (ar_data ar))).

(** [summary.update(d)]: the keys of [d] win. *)
Definition ar_update_summary (r : ref) (d : gmap string Z) : M unit :=
  ar_write (λ ar, {| ar_param := ar_param ar; ar_status := ar_status ar;
                     ar_message := ar_message ar; ar_data := ar_data ar;
                     ar_summary := d ∪ ar_summary ar |}) r.

(** ** [patch_requests]: the wrappers put around [requests.post] and
    [requests.get] *)

Section Requests.

Context {V R : Type}.

(** A function called with positional and keyword arguments. *)
Definition callable : Type := list V → gmap string V → R.

(** The module [requests], as far as the connector touches it. *)
Record Requests : Type := {
  requests_post : callable;
  requests_get : callable
}.

Definition new_requests_post (requests_post_old : callable) : callable :=
  λ args kwargs,
    match kwargs !! "url" with
    | Some url => requests_post_old [url] (delete "url" kwargs)
    | None => requests_post_old args kwargs
    end.

Definition new_requests_get (requests_get_old : callable) : callable :=
  λ args kwargs,
    match kwargs !! "url" with
    | Some url => requests_get_old [url] (delete "url" kwargs)
    | None => requests_get_old args kwargs
    end.

Definition patch_requests (requests : Requests) : Requests :=
  let requests_post_old := requests_post requests in
  let requests_get_old := requests_get requests in
  {| requests_post := new_requests_post requests_post_old;
     requests_get := new_requests_get requests_get_old |}.


End Requests.

Arguments callable : clear implicits.
Arguments Requests : clear implicits.

(** ** Fixtures: a small vendor service and a connector to run against *)

Module Fixtures.

(** The reply to a tag lookup: the four fields the connector reads and
    one it does not. *)
Definition detail (name : string) : json :=
  JDict {[ "tag" :=
             JDict {[ "description" := JStr ("about " +:+ name);
                      "tag_name" := JStr name;
                      "public_tag_name" := JStr ("Unit42." +:+ name);
                      "count" := JInt 7;
                      "lasthit" := JStr "2018-01-01" ]} ]}.

Definition ok {J : Type} (j : J) : Response J :=
  {| raise_for_status := None; resp_json := j |}.

Definition http_error {J : Type} (e : string) (j : J) : Response J :=
  {| raise_for_status := Some e; resp_json := j |}.

(** One page: a hit tagged foo, a hit tagged foo and bar, a hit
    without tags. *)
Definition two_tags : list (list Hit) :=
  [[ {| source_tag := Some ["malware.foo"] |};
     {| source_tag := Some ["malware.foo"; "malware.bar"] |};
     {| source_tag := None |} ]].

Definition quota : json :=
  JDict {[ "bucket_info" :=
             JDict {[ "daily_points_remaining" := JInt 950;
                      "daily_points" := JInt 1000 ]} ]}.

Definition service : AFapi :=
  {| PanAFapi := λ _, None;
     samples_search_results := λ _, {| pages := two_tags; failure := None |};
     tag := λ t, Returned (ok (detail t));
     export := Returned (ok quota) |}.

(** The lookup of bar is answered with a 404. *)
Definition service_bar_missing : AFapi :=
  {| PanAFapi := λ _, None;
     samples_search_results := λ _, {| pages := two_tags; failure := None |};
     tag := λ t, if bool_decide (t = "malware.bar")
                 then Returned (http_error "404 Client Error: Not Found" JNull)
                 else Returned (ok (detail t));
     export := Returned (ok quota) |}.

(** The lookup of bar is answered with a 200 that is not JSON. *)
Definition service_bar_not_json : AFapi :=
  {| PanAFapi := λ _, None;
     samples_search_results := λ _, {| pages := two_tags; failure := None |};
     tag := λ t, if bool_decide (t = "malware.bar")
                 then Returned (ok JNull)
                 else Returned (ok (detail t));
     export := Returned (ok quota) |}.

(** The lookup of bar does not get through: the client raises. *)
Definition service_bar_unreachable : AFapi :=
  {| PanAFapi := λ _, None;
     samples_search_results := λ _, {| pages := two_tags; failure := None |};
     tag := λ t, if bool_decide (t = "malware.bar")
                 then Raised (ClientError "Connection refused")
                 else Returned (ok (detail t));
     export := Returned (ok quota) |}.

(** Every lookup is answered with a 500. *)
Definition service_tags_down : AFapi :=
  {| PanAFapi := λ _, None;
     samples_search_results := λ _, {| pages := two_tags; failure := None |};
     tag := λ t, Returned (http_error "500 Server Error" JNull);
     export := Returned (ok quota) |}.

(** The search delivers a page and then fails. *)
Definition service_search_down : AFapi :=
  {| PanAFapi := λ _, None;
     samples_search_results :=
       λ _, {| pages := two_tags; failure := Some "503 Server Error" |};
     tag := λ t, Returned (ok (detail t));
     export := Returned (ok quota) |}.

(** The client cannot be constructed. *)
Definition service_no_client : AFapi :=
  {| PanAFapi := λ _, Some "api_key required";
     samples_search_results := λ _, {| pages := two_tags; failure := None |};
     tag := λ t, Returned (ok (detail t));
     export := Returned (ok quota) |}.

(** The export call is answered with a 401. *)
Definition service_export_denied : AFapi :=
  {| PanAFapi := λ _, None;
     samples_search_results := λ _, {| pages := two_tags; failure := None |};
     tag := λ t, Returned (ok (detail t));
     export := Returned (http_error "401 Client Error: Unauthorized" JNull) |}.

(** The export call is answered with a 200 and an empty object. *)
Definition service_export_empty : AFapi :=
  {| PanAFapi := λ _, None;
     samples_search_results := λ _, {| pages := two_tags; failure := None |};
     tag := λ t, Returned (ok (detail t));
     export := Returned (ok (JDict ∅)) |}.

(** A search whose hits carry no tag or an empty tag list. *)
Definition service_untagged : AFapi :=
  {| PanAFapi := λ _, None;
     samples_search_results :=
       λ _, {| pages := [[ {| source_tag := None |}; {| source_tag := Some [] |} ]; []];
               failure := None |};
     tag := λ t, Returned (ok (detail t));
     export := Returned (ok quota) |}.

(** A connector without an API key in its configuration. *)
Definition connector_no_key (action : string) : Connector :=
  {| config := ∅;
     action_identifier := action;
     status := APP_SUCCESS; message := "idle";
     action_results := []; heap := []; trace := [] |}.

(** An [ActionResult] that holds a record and a summary already. *)
Definition earlier_result : ActionResult :=
  {| ar_param := ∅; ar_status := APP_SUCCESS; ar_message := "so far";
     ar_data := [ReportData (detail "malware.old")];
     ar_summary := {[ "pages_read" := 3%Z ]} |}.

(** A connector whose heap holds that object, at reference 0. *)
Definition connector_with_result : Connector :=
  {| config := {[ "api_key" := "secret" ]};
     action_identifier := "hunt_file";
     status := APP_ERROR; message := "";
     action_results := [0]; heap := [earlier_result]; trace := [] |}.

(** The interpreter of the fixtures: [str] of integers and strings, which
    is all the examples format, and ASCII lowering, the examples being in
    ASCII. *)
Definition fixture_str (j : json) : string :=
  match j with
  | JInt z => pretty z
  | JStr s => s
  | _ => "None"
  end.

Definition in_order (api : AFapi) : World :=
  {| afapi := api; set_iter := elements;
     str_lower := lower_ascii; str_of := fixture_str;
     str_lower_ascii := λ s _, eq_refl; str_of_int := λ z, eq_refl |}.

Definition in_reverse (api : AFapi) : World :=
  {| afapi := api; set_iter := λ s, reverse (elements s);
     str_lower := lower_ascii; str_of := fixture_str;
     str_lower_ascii := λ s _, eq_refl; str_of_int := λ z, eq_refl |}.

Definition connector (action : string) : Connector :=
  {| config := {[ "api_key" := "secret" ]};
     action_identifier := action;
     status := APP_ERROR; message := "";
     action_results := []; heap := []; trace := [] |}.

Definition invalid_scope : list fmt_piece := [Lit "Invalid scope: "; Field].

Definition hunt_file_param (scope : string) : gmap string string :=
  {[ "hash" := "abc123"; "scope" := scope ]}.

Definition hunt_ip_param (scope : string) : gmap string string :=
  {[ "ip" := "10.0.0.1"; "scope" := scope ]}.

End Fixtures.

(** ** The connector *)

Module AutoFocusConnector.

Section Connector.

(** The constants of [autofocus_consts] and of [phantom], which the
    connector imports: parameter names, the action identifier of the
    connectivity test and the message template for a scope that is not
    recognised. *)
Variables AF_JSON_API_KEY AF_JSON_SCOPE : string.
Variables AF_JSON_HASH AF_JSON_IP AF_JSON_DOMAIN AF_JSON_URL AF_JSON_TAG : string.
Variable AF_ERR_INVALID_SCOPE : list fmt_piece.
Variable ACTION_ID_TEST_ASSET_CONNECTIVITY : string.

Variable world : World.

Definition SCOPE_MAP : gmap string string :=
  {[ "all samples" := "global"; "my samples" := "private";
     "public samples" := "public" ]}.

Definition ACTION_ID_HUNT_FILE : string := "hunt_file".
Definition ACTION_ID_HUNT_IP : string := "hunt_ip".
Definition ACTION_ID_HUNT_DOMAIN : string := "hunt_domain".
Definition ACTION_ID_HUNT_URL : string := "hunt_url".
Definition ACTION_ID_GET_REPORT : string := "get_report".

(** The calls on [self._afapi]; each one is logged. *)
Definition afapi_new (api_key : string) : M (option string) :=
  log (EvPanAFapi api_key) ;; mret (PanAFapi (afapi world) api_key).

Definition afapi_samples_search_results (data : json) : M SearchResults :=
  log (EvSearch data) ;; mret (samples_search_results (afapi world) data).

Definition afapi_tag (tagname : string) : M (Response json) :=
  log (EvTag tagname) ;; lift (tag (afapi world) tagname).

Definition afapi_export : M (Response json) :=
  log EvExport ;; lift (export (afapi world)).

(** [json.dumps] is left out: the service is given the body itself. *)
Definition json_dumps (body : json) : json := body.

Definition _validate_api_call {J : Type} (response : Response J) (action_result : ref)
  : M bool :=
  match raise_for_status response with
  | Some e => ar_set_status action_result APP_ERROR e
  | None => mret APP_SUCCESS
  end.

Definition _init_api (action_result : ref) : M bool :=
  cfg ← get_config;
  api_key ← getitem cfg AF_JSON_API_KEY;
  raised ← afapi_new api_key;
  match raised with
  | Some e => ar_set_status action_result APP_ERROR e
  | None => mret APP_SUCCESS
  end.

Definition _construct_body (value field : string) (start size : Z) (scope : string)
  : json :=
  let body : gmap string json := ∅ in
  let body := <["scope" := JStr scope]> body in
  let body := <["from" := JInt start]> body in
  let body := <["size" := JInt size]> body in
  let body := <["sort" := JDict {[ "create_date" := JDict {[ "order" := JStr "desc" ]} ]}]> body in
  let body := <["query" := JDict {[ "operator" := JStr "all";
                  "children" := JList [ JDict {[ "field" := JStr field;
                                                 "operator" := JStr "contains";
                                                 "value" := JStr value ]} ] ]}]> body in
  JDict body.

(** The three nested loops of the [try] block, innermost first. *)
Definition add_tags (tags : list string) (tag_set : gset string) : gset string :=
  foldl (λ s t, {[ t ]} ∪ s) tag_set tags.

Definition add_hit (tag_set : gset string) (i : Hit) : gset string :=
  match source_tag i with
  | Some tags => add_tags tags tag_set
  | None => tag_set
  end.

Definition add_page (tag_set : gset string) (hits : list Hit) : gset string :=
  foldl add_hit tag_set hits.

Definition collect_tags (results : list (list Hit)) : gset string :=
  foldl add_page ∅ results.

(** The dict [tag_data] filled from [r.json], one subscripted read per
    line; the first read that fails raises. *)
Definition project (j : json) : outcome TagRecord :=
  description ← (t ← subscript j "tag"; subscript t "description");
  tag_name ← (t ← subscript j "tag"; subscript t "tag_name");
  public_tag_name ← (t ← subscript j "tag"; subscript t "public_tag_name");
  count ← (t ← subscript j "tag"; subscript t "count");
  mret {| description := description; tag_name := tag_name;
          public_tag_name := public_tag_name; count := count |}.

(** [for tag in tag_set: ...], over the tags in iteration order. *)
Fixpoint enrich (tags : list string) (action_result : ref) : M unit :=
  match tags with
  | [] => mret ()
  | tag :: rest =>
      r ← afapi_tag tag;
      ok ← _validate_api_call r action_result;
      if negb ok then enrich rest action_result
      else
        tag_data ← lift (project (resp_json r));
        ar_add_data action_result (TagData tag_data) ;;
        enrich rest action_result
  end.

Definition _samples_search_tag (body : json) (action_result : ref) : M bool :=
  let body := json_dumps body in
  results ← afapi_samples_search_results body;
  let tag_set := collect_tags (pages results) in
  match failure results with
  | Some e => ar_set_status action_result APP_ERROR e
  | None =>
      enrich (set_iter world tag_set) action_result ;;
      n ← ar_get_data_size action_result;
      ar_update_summary action_result {[ "total_tags_matched" := n ]} ;;
      mret APP_SUCCESS
  end.

Definition _test_connectivity : M bool :=
  action_result ← ActionResult_new ∅;
  save_progress "Starting connectivity test" ;;
  ret_val ← _init_api action_result;
  if is_fail ret_val
  then set_status_save_progress APP_ERROR "Connectivity test failed"
  else
    save_progress "Making a request to PAN AutoFocus" ;;
    r ← afapi_export;
    ret_val ← _validate_api_call r action_result;
    if is_fail ret_val
    then
      msg ← ar_get_message action_result;
      save_progress msg ;;
      save_progress "Test Connectivity failed" ;;
      set_status APP_ERROR ""
    else
      j ← lift (subscript (resp_json r) "bucket_info");
      remaining ← lift (subscript j "daily_points_remaining");
      total ← lift (subscript j "daily_points");
      save_progress (str_of world remaining +:+ "/" +:+ str_of world total
                     +:+ " daily points remaining") ;;
      set_status_save_progress APP_SUCCESS "Connectivity test passed".

Definition _hunt_action (field value_type : string) (param : gmap string string)
  : M bool :=
  action_result ← (ar ← ActionResult_new param; add_action_result ar);
  ret_val ← _init_api action_result;
  if is_fail ret_val then ar_get_status action_result
  else
    let scope := str_lower world (default "All Samples" (param !! AF_JSON_SCOPE)) in
    match SCOPE_MAP !! scope with
    | None =>
        (* except KeyError *)
        (if bool_decide (scope ∈ (map_to_list SCOPE_MAP).*2) then pass else mret ()) ;;
        ar_set_status action_result APP_ERROR (format AF_ERR_INVALID_SCOPE scope)
    | Some scope =>
        value ← getitem param value_type;
        let start := 0%Z in
        let size := 4000%Z in
        let body := _construct_body value field start size scope in
        save_progress "Querying AutoFocus" ;;
        ret_val ← _samples_search_tag body action_result;
        if is_fail ret_val then ar_get_status action_result
        else ar_set_status action_result APP_SUCCESS ""
    end.

Definition _hunt_file (param : gmap string string) : M bool :=
  _hunt_action "alias.hash" AF_JSON_HASH param.

Definition _hunt_ip (param : gmap string string) : M bool :=
  _hunt_action "alias.ip_address" AF_JSON_IP param.

Definition _hunt_domain (param : gmap string string) : M bool :=
  _hunt_action "alias.domain" AF_JSON_DOMAIN param.

Definition _hunt_url (param : gmap string string) : M bool :=
  _hunt_action "alias.url" AF_JSON_URL param.

Definition _get_report (param : gmap string string) : M bool :=
  action_result ← (ar ← ActionResult_new param; add_action_result ar);
  ret_val ← _init_api action_result;
  if is_fail ret_val then ar_get_status action_result
  else
    tag ← getitem param AF_JSON_TAG;
    r ← afapi_tag tag;
    ret_val ← _validate_api_call r action_result;
    if is_fail ret_val then ar_get_status action_result
    else
      ar_add_data action_result (ReportData (resp_json r)) ;;
      ar_set_status action_result APP_SUCCESS "Successfully retrieved report info".

Definition handle_action (param : gmap string string) : M bool :=
  action ← get_action_identifier;
  let ret_val := APP_SUCCESS in
  if bool_decide (action = ACTION_ID_TEST_ASSET_CONNECTIVITY) then _test_connectivity
  else if bool_decide (action = ACTION_ID_HUNT_FILE) then _hunt_file param
  else if bool_decide (action = ACTION_ID_HUNT_IP) then _hunt_ip param
  else if bool_decide (action = ACTION_ID_HUNT_DOMAIN) then _hunt_domain param
  else if bool_decide (action = ACTION_ID_HUNT_URL) then _hunt_url param
  else if bool_decide (action = ACTION_ID_GET_REPORT) then _get_report param
  else mret ret_val.

(** *** Specification-level functions

    What the loops and the handlers compute, written on values; the
    lemmas below relate them to the monadic code above. *)

(** What one lookup does to the [ActionResult], or the exception it
    raises: the call may raise; a reply that fails the validation leaves
    its error; a reply that passes is read, which may raise, and its record
    is added. *)
Definition lookup_result (tagname : string)
  : outcome (ActionResult → ActionResult) :=
  r ← tag (afapi world) tagname;
  match raise_for_status r with
  | Some e =>
      mret (λ ar, {| ar_param := ar_param ar; ar_status := APP_ERROR; ar_message := e;
                     ar_data := ar_data ar; ar_summary := ar_summary ar |})
  | None =>
      tag_data ← project (resp_json r);
      mret (λ ar, {| ar_param := ar_param ar; ar_status := ar_status ar;
                     ar_message := ar_message ar;
                     ar_data := ar_data ar ++ [TagData tag_data];
                     ar_summary := ar_summary ar |})
  end.

(** The enrichment loop on values: how it ends, what it has done to the
    [ActionResult] by then, and the tags it has looked up. *)
Fixpoint enrich_spec (tags : list string)
  : outcome unit * (ActionResult → ActionResult) * list string :=
  match tags with
  | [] => (Returned (), λ ar, ar, [])
  | t :: rest =>
      match lookup_result t with
      | Raised e => (Raised e, λ ar, ar, [t])
      | Returned f =>
          let '(o, g, visited) := enrich_spec rest in
          (o, λ ar, g (f ar), t :: visited)
      end
  end.

(** A lookup that returns a reply failing the status validation. *)
Definition lookup_fails (tagname : string) : bool :=
  match tag (afapi world) tagname with
  | Returned r => bool_decide (raise_for_status r ≠ None)
  | Raised _ => false
  end.

(** The record of a lookup that returns a reply passing the validation
    and carrying the four fields; [None] for any other lookup. *)
Definition tag_record (tagname : string) : option data_item :=
  match tag (afapi world) tagname with
  | Returned r =>
      match raise_for_status r, project (resp_json r) with
      | None, Returned tag_data => Some (TagData tag_data)
      | _, _ => None
      end
  | Raised _ => None
  end.

(** A lookup the loop gets past: the call returns, and the reply fails
    the validation or carries the four fields. *)
Definition lookup_settles (tagname : string) : bool :=
  match lookup_result tagname with
  | Returned _ => true
  | Raised _ => false
  end.

(** The two counters of an export reply, read as the test reads them. *)
Definition quota_of (j : json) : outcome (json * json) :=
  b ← subscript j "bucket_info";
  remaining ← subscript b "daily_points_remaining";
  total ← subscript b "daily_points";
  mret (remaining, total).

(** What [update_summary] leaves after the loop. *)
Definition summarise (ar : ActionResult) : ActionResult :=
  {| ar_param := ar_param ar; ar_status := ar_status ar;
     ar_message := ar_message ar; ar_data := ar_data ar;
     ar_summary :=
       {[ "total_tags_matched" := Z.of_nat (length (ar_data ar)) ]} ∪ ar_summary ar |}.

(** The scope string a hunt looks up in [SCOPE_MAP]. *)
Definition scope_of (param : gmap string string) : string :=
  str_lower world (default "All Samples" (param !! AF_JSON_SCOPE)).

(** The scope strings the action parameters document. *)
Definition scope_vocabulary : list string :=
  ["all samples"; "my samples"; "public samples"; "global"; "private"; "public"].

(** The request body of a hunt. *)
Definition hunt_body (field value scope : string) : json :=
  _construct_body value field 0 4000 scope.

(** The tags a hunt enriches, in the order the loop visits them. *)
Definition hunt_tags (field value scope : string) : list string :=
  set_iter world
    (collect_tags (pages (samples_search_results (afapi world)
                            (hunt_body field value scope)))).

(** The [ActionResult] of a hunt that went through, from the one the
    enrichment loop left: the count is written and the status set. *)
Definition hunt_result (ar : ActionResult) : ActionResult :=
  {| ar_param := ar_param ar; ar_status := APP_SUCCESS; ar_message := "";
     ar_data := ar_data ar;
     ar_summary :=
       {[ "total_tags_matched" := Z.of_nat (length (ar_data ar)) ]} ∪ ar_summary ar |}.

(** The [ActionResult] of a hunt that failed with message [e]. *)
Definition hunt_failure (param : gmap string string) (e : string) : ActionResult :=
  {| ar_param := param; ar_status := APP_ERROR; ar_message := e;
     ar_data := []; ar_summary := ∅ |}.

(** The state a hunt leaves: one more [ActionResult], registered with
    the connector, and some more events. *)
Definition hunt_state (st : Connector) (ar : ActionResult) (evs : list event)
  : Connector :=
  {| config := config st; action_identifier := action_identifier st;
     status := status st; message := message st;
     action_results := action_results st ++ [length (heap st)];
     heap := heap st ++ [ar];
     trace := trace st ++ evs |}.

(** API initialisation goes through: the key is configured and the
    client is constructed without an exception. *)
Definition init_succeeds (st : Connector) (api_key : string) : Prop :=
  config st !! AF_JSON_API_KEY = Some api_key ∧
  PanAFapi (afapi world) api_key = None.

(** The action identifiers [handle_action] knows. *)
Definition known_actions : list string :=
  [ACTION_ID_TEST_ASSET_CONNECTIVITY; ACTION_ID_HUNT_FILE; ACTION_ID_HUNT_IP;
   ACTION_ID_HUNT_DOMAIN; ACTION_ID_HUNT_URL; ACTION_ID_GET_REPORT].

(** [_hunt_action] as a decision tree over what the run meets: the
    configuration, the client constructor, the scope, the value
    parameter and the search stream. *)
Definition hunt_spec (field value_type : string) (param : gmap string string)
    (st : Connector) : outcome bool * Connector :=
  match config st !! AF_JSON_API_KEY with
  | None =>
      (Raised (KeyError AF_JSON_API_KEY), hunt_state st (ActionResult_init param) [])
  | Some api_key =>
      match PanAFapi (afapi world) api_key with
      | Some e =>
          (Returned APP_ERROR,
           hunt_state st (hunt_failure param e) [EvPanAFapi api_key])
      | None =>
          match SCOPE_MAP !! scope_of param with
          | None =>
              (Returned APP_ERROR,
               hunt_state st
                 (hunt_failure param (format AF_ERR_INVALID_SCOPE (scope_of param)))
                 [EvPanAFapi api_key])
          | Some scope =>
              match param !! value_type with
              | None =>
                  (Raised (KeyError value_type),
                   hunt_state st (ActionResult_init param) [EvPanAFapi api_key])
              | Some value =>
                  let body := hunt_body field value scope in
                  match failure (samples_search_results (afapi world) body) with
                  | Some e =>
                      (Returned APP_ERROR,
                       hunt_state st (hunt_failure param e)
                         [EvPanAFapi api_key; EvProgress "Querying AutoFocus";
                          EvSearch body])
                  | None =>
                      let '(o, f, visited) := enrich_spec (hunt_tags field value scope) in
                      let ar := f (ActionResult_init param) in
                      let evs := [EvPanAFapi api_key; EvProgress "Querying AutoFocus";
                                  EvSearch body] ++ (EvTag <$> visited) in
                      match o with
                      | Returned _ =>
                          (Returned APP_SUCCESS, hunt_state st (hunt_result ar) evs)
                      | Raised e => (Raised e, hunt_state st ar evs)
                      end
                  end
              end
          end
      end
  end.

(** The state the connectivity test leaves: a local [ActionResult],
    not registered with the connector, and some more events. *)
Definition test_state (st : Connector) (status_code : bool) (msg : string)
    (ar : ActionResult) (evs : list event) : Connector :=
  {| config := config st; action_identifier := action_identifier st;
     status := status_code; message := msg;
     action_results := action_results st;
     heap := heap st ++ [ar];
     trace := trace st ++ evs |}.

(** The progress message with the remaining quota. *)
Definition points_message (remaining total : json) : string :=
  str_of world remaining +:+ "/" +:+ str_of world total +:+ " daily points remaining".

(** [_test_connectivity] as a decision tree over what the run meets. *)
Definition test_spec (st : Connector) : outcome bool * Connector :=
  let start := EvProgress "Starting connectivity test" in
  match config st !! AF_JSON_API_KEY with
  | None =>
      (Raised (KeyError AF_JSON_API_KEY),
       test_state st (status st) (message st) (ActionResult_init ∅) [start])
  | Some api_key =>
      match PanAFapi (afapi world) api_key with
      | Some e =>
          (Returned APP_ERROR,
           test_state st APP_ERROR "Connectivity test failed" (hunt_failure ∅ e)
             [start; EvPanAFapi api_key;
              EvStatus APP_ERROR "Connectivity test failed";
              EvProgress "Connectivity test failed"])
      | None =>
          let called := [start; EvPanAFapi api_key;
                         EvProgress "Making a request to PAN AutoFocus"; EvExport] in
          match export (afapi world) with
          | Raised e =>
              (Raised e,
               test_state st (status st) (message st) (ActionResult_init ∅) called)
          | Returned r =>
              match raise_for_status r with
              | Some e =>
                  (Returned APP_ERROR,
                   test_state st APP_ERROR "" (hunt_failure ∅ e)
                     (called ++ [EvProgress e; EvProgress "Test Connectivity failed";
                                 EvStatus APP_ERROR ""]))
              | None =>
                  match quota_of (resp_json r) with
                  | Raised e =>
                      (Raised e,
                       test_state st (status st) (message st) (ActionResult_init ∅)
                         called)
                  | Returned (remaining, total) =>
                      (Returned APP_SUCCESS,
                       test_state st APP_SUCCESS "Connectivity test passed"
                         (ActionResult_init ∅)
                         (called ++ [EvProgress (points_message remaining total);
                                     EvStatus APP_SUCCESS "Connectivity test passed";
                                     EvProgress "Connectivity test passed"]))
                  end
              end
          end
      end
  end.

(** [_get_report] as a decision tree over what the run meets. *)
Definition get_report_spec (param : gmap string string) (st : Connector)
  : outcome bool * Connector :=
  match config st !! AF_JSON_API_KEY with
  | None =>
      (Raised (KeyError AF_JSON_API_KEY), hunt_state st (ActionResult_init param) [])
  | Some api_key =>
      match PanAFapi (afapi world) api_key with
      | Some e =>
          (Returned APP_ERROR,
           hunt_state st (hunt_failure param e) [EvPanAFapi api_key])
      | None =>
          match param !! AF_JSON_TAG with
          | None =>
              (Raised (KeyError AF_JSON_TAG),
               hunt_state st (ActionResult_init param) [EvPanAFapi api_key])
            | Some tagname =>
              match tag (afapi world) tagname with
              | Raised e =>
                  (Raised e,
                   hunt_state st (ActionResult_init param)
                     [EvPanAFapi api_key; EvTag tagname])
              | Returned r =>
                  match raise_for_status r with
                  | Some e =>
                      (Returned APP_ERROR,
                       hunt_state st (hunt_failure param e)
                         [EvPanAFapi api_key; EvTag tagname])
                  | None =>
                      (Returned APP_SUCCESS,
                       hunt_state st
                         {| ar_param := param; ar_status := APP_SUCCESS;
                            ar_message := "Successfully retrieved report info";
                            ar_data := [ReportData (resp_json r)];
                            ar_summary := ∅ |}
                         [EvPanAFapi api_key; EvTag tagname])
                  end
              end
          end
      end
  end.

(** The hits of all pages, in order. *)
Definition all_hits (results : list (list Hit)) : list Hit := mjoin results.

(** The hunt variants: action identifier, field searched, parameter
    holding the value. *)
Definition hunt_variants : list (string * string * string) :=
  [(ACTION_ID_HUNT_FILE, "alias.hash", AF_JSON_HASH);
   (ACTION_ID_HUNT_IP, "alias.ip_address", AF_JSON_IP);
   (ACTION_ID_HUNT_DOMAIN, "alias.domain", AF_JSON_DOMAIN);
   (ACTION_ID_HUNT_URL, "alias.url", AF_JSON_URL)].

(** The events of a run that reach the vendor service. *)
Definition remote_calls (evs : list event) : list event :=
  filter (λ ev, is_remote_call ev) evs.

Definition is_search (ev : event) : bool :=
  match ev with EvSearch _ => true | _ => false end.

Definition is_tag_lookup (ev : event) : bool :=
  match ev with EvTag _ => true | _ => false end.

Definition is_export (ev : event) : bool :=
  match ev with EvExport => true | _ => false end.

(** ** Lemmas *)

Ltac run :=
  repeat progress
    (unfold mbind, M_bind, mret, M_ret, raise, lift, pass, getitem, log, get_config,
       get_action_identifier, save_progress, set_status, set_status_save_progress,
       add_action_result, ActionResult_new, ar_set_status, ar_get_status,
       ar_get_message, ar_add_data, ar_get_data_size, ar_update_summary, ar_read,
       ar_write, afapi_new, afapi_samples_search_results, afapi_tag, afapi_export,
       set_trace, set_heap, set_action_results, set_conn_status,
       is_fail, APP_SUCCESS, APP_ERROR;
     simpl).

(** *** Lists used as a heap *)

Lemma alter_snoc {A : Type} (f : A → A) (h : list A) (x : A) :
  alter f (length h) (h ++ [x]) = h ++ [f x].
Proof. replace (length h) with (length h + 0) by lia. by rewrite alter_app_r. Qed.

Lemma lookup_total_snoc (h : list ActionResult) (x : ActionResult) :
  (h ++ [x]) !!! length h = x.
Proof. by apply list_lookup_total_middle. Qed.

Lemma alter_lookup {A : Type} (f : A → A) (h : list A) (r : nat) (x : A) :
  h !! r = Some x → alter f r h = <[r := f x]> h.
Proof.
  revert r. induction h as [|y h IH]; intros [|r] Hr; simplify_eq/=; [done|].
  f_equal. by apply IH.
Qed.

(** *** The enrichment loop *)

Lemma set_trace_nil_heap_id (r : ref) (st : Connector) :
  set_trace (.++ []) (set_heap (alter (λ ar, ar) r) st) = st.
Proof.
  destruct st; unfold set_trace, set_heap; simpl.
  by rewrite app_nil_r, list_alter_id.
Qed.

Lemma set_trace_one_heap_id (r : ref) (ev : event) (st : Connector) :
  set_trace (.++ [ev]) (set_heap (alter (λ ar, ar) r) st) = set_trace (.++ [ev]) st.
Proof.
  destruct st; unfold set_trace, set_heap; simpl. by rewrite list_alter_id.
Qed.

Lemma enrich_run (tags : list string) (r : ref) (st : Connector) :
  enrich tags r st =
    ((enrich_spec tags).1.1,
     set_trace (.++ (EvTag <$> (enrich_spec tags).2))
       (set_heap (alter (enrich_spec tags).1.2 r) st)).
Proof.
  revert st. induction tags as [|t tags IH]; intros st.
  - simpl. unfold mret, M_ret. by rewrite set_trace_nil_heap_id.
  - simpl. unfold lookup_result.
    unfold mbind at 1, M_bind at 1, afapi_tag, mbind at 1, M_bind at 1, log, lift.
    simpl. destruct (tag (afapi world) t) as [rsp|e]; simpl.
    2:{ by rewrite set_trace_one_heap_id. }
    unfold _validate_api_call.
    destruct (raise_for_status rsp) as [e|]; simpl.
    + unfold mbind, M_bind, ar_set_status, ar_write, mbind, M_bind, mret, M_ret. simpl.
      rewrite IH. destruct (enrich_spec tags) as [[o g] v]. simpl. f_equal.
      destruct st; unfold set_trace, set_heap; simpl. f_equal.
      * by rewrite list_alter_alter_eq.
      * by rewrite <- app_assoc.
    + unfold mbind, M_bind, mret, M_ret, lift. simpl.
      destruct (project (resp_json rsp)) as [tag_data|e]; simpl.
      2:{ by rewrite set_trace_one_heap_id. }
      unfold ar_add_data, ar_write. simpl.
      rewrite IH. destruct (enrich_spec tags) as [[o g] v]. simpl. f_equal.
      destruct st; unfold set_trace, set_heap; simpl. f_equal.
      * by rewrite list_alter_alter_eq.
      * by rewrite <- app_assoc.
Qed.

Lemma lookup_result_frame (t : string) (f : ActionResult → ActionResult)
    (ar : ActionResult) :
  lookup_result t = Returned f →
  ar_param (f ar) = ar_param ar ∧ ar_summary (f ar) = ar_summary ar ∧
  ar_data (f ar) = ar_data ar ++ option_list (tag_record t).
Proof.
  unfold lookup_result, tag_record. destruct (tag (afapi world) t) as [rsp|e]; [|done].
  simpl. destruct (raise_for_status rsp) as [e|]; simpl.
  - intros [= <-]. simpl. by rewrite app_nil_r.
  - destruct (project (resp_json rsp)) as [tag_data|e]; [|done].
    intros [= <-]. done.
Qed.

Lemma lookup_result_raised (t : string) (e : exception) :
  lookup_result t = Raised e → tag_record t = None.
Proof.
  unfold lookup_result, tag_record. destruct (tag (afapi world) t) as [rsp|e']; [|done].
  simpl. destruct (raise_for_status rsp) as [e'|]; [done|]. simpl.
  by destruct (project (resp_json rsp)).
Qed.

(** Whatever the lookups do, the loop keeps the parameters and the
    summary and only adds data: the records of the tags it got past. *)
Lemma enrich_spec_frame (tags : list string) (ar : ActionResult) :
  ar_param ((enrich_spec tags).1.2 ar) = ar_param ar ∧
  ar_summary ((enrich_spec tags).1.2 ar) = ar_summary ar ∧
  ar_data ((enrich_spec tags).1.2 ar) = ar_data ar ++ omap tag_record (enrich_spec tags).2.
Proof.
  revert ar. induction tags as [|t tags IH]; intros ar.
  - simpl. by rewrite app_nil_r.
  - simpl. destruct (lookup_result t) as [f|e] eqn:Ht; simpl.
    + destruct (enrich_spec tags) as [[o g] v] eqn:Hrest. simpl in *.
      destruct (IH (f ar)) as (-> & -> & ->).
      destruct (lookup_result_frame t f ar Ht) as (-> & -> & ->).
      split_and!; [done..|]. rewrite <- app_assoc. f_equal.
      by destruct (tag_record t).
    + rewrite (lookup_result_raised _ _ Ht). by rewrite app_nil_r.
Qed.

(** The loop visits a prefix of the tags, all of them unless it raises,
    and at least one when it raises. *)
Lemma enrich_spec_visited (tags : list string) :
  (∃ rest, tags = (enrich_spec tags).2 ++ rest) ∧
  (∀ u, (enrich_spec tags).1.1 = Returned u → (enrich_spec tags).2 = tags) ∧
  (∀ e, (enrich_spec tags).1.1 = Raised e → (enrich_spec tags).2 ≠ []).
Proof.
  induction tags as [|t tags ([rest Hrest] & Hret & Hraise)]; simpl.
  - split_and!; [by exists []|done..].
  - destruct (lookup_result t) as [f|e]; simpl.
    + destruct (enrich_spec tags) as [[o g] v]. simpl in *. split_and!.
      * exists rest. by rewrite Hrest at 1.
      * intros u Hu. f_equal. by eapply Hret.
      * done.
    + split_and!; [by exists tags|done..].
Qed.

(** When every lookup settles, the loop returns, having visited every
    tag. *)
Lemma enrich_spec_settles (tags : list string) :
  (∀ t : string, t ∈ tags → lookup_settles t = true) →
  (enrich_spec tags).1.1 = Returned () ∧ (enrich_spec tags).2 = tags.
Proof.
  induction tags as [|t tags IH]; intros Hall; [done|]. simpl.
  pose proof (Hall t ltac:(left)) as Ht. unfold lookup_settles in Ht.
  destruct (lookup_result t) as [f|e]; [|done].
  destruct IH as [IH1 IH2]; [intros u Hu; apply Hall; by right|].
  destruct (enrich_spec tags) as [[o g] v]. simpl in *. by subst.
Qed.

(** A settled lookup either fails the validation or gives a record. *)
Lemma settled_fails_or_record (t : string) :
  lookup_settles t = true →
  (lookup_fails t = true ∧ tag_record t = None)
  ∨ (lookup_fails t = false ∧ is_Some (tag_record t)).
Proof.
  unfold lookup_settles, lookup_result, lookup_fails, tag_record.
  destruct (tag (afapi world) t) as [rsp|e]; [|done]. simpl.
  destruct (raise_for_status rsp) as [e|]; simpl.
  - by left.
  - destruct (project (resp_json rsp)); [|done]. intros _. right.
    split; [done|by eexists].
Qed.

Lemma settled_count (l : list string) :
  (∀ t : string, t ∈ l → lookup_settles t = true) →
  length (omap tag_record l) + length (filter (λ t, lookup_fails t) l) = length l.
Proof.
  induction l as [|t l IH]; intros Hall; [done|].
  specialize (IH (λ u Hu, Hall u (list_elem_of_further _ _ _ Hu))).
  rewrite filter_cons. simpl.
  destruct (settled_fails_or_record t (Hall t ltac:(left)))
    as [[-> ->]|[-> [rec ->]]]; simpl; unfold omap in IH; lia.
Qed.

Lemma all_fail_no_record (l : list string) :
  (∀ t : string, t ∈ l → lookup_fails t = true) → omap tag_record l = [].
Proof.
  induction l as [|t l IH]; intros Hall; [done|].
  specialize (IH (λ u Hu, Hall u (list_elem_of_further _ _ _ Hu))).
  unfold omap in *. simpl. rewrite IH.
  pose proof (Hall t ltac:(left)) as Ht. unfold lookup_fails, tag_record in *.
  destruct (tag (afapi world) t) as [rsp|e]; [|done].
  by destruct (raise_for_status rsp).
Qed.

(** Lookups that all give a record leave status and message alone. *)
Lemma enrich_spec_records_status (tags : list string) (ar : ActionResult) :
  (∀ t : string, t ∈ tags → is_Some (tag_record t)) →
  (enrich_spec tags).1.1 = Returned () ∧
  ar_status ((enrich_spec tags).1.2 ar) = ar_status ar ∧
  ar_message ((enrich_spec tags).1.2 ar) = ar_message ar.
Proof.
  revert ar. induction tags as [|t tags IH]; intros ar Hall; [done|]. simpl.
  destruct (Hall t ltac:(left)) as [rec Hrec].
  unfold lookup_result. unfold tag_record in Hrec.
  destruct (tag (afapi world) t) as [rsp|e]; [|done]. simpl.
  destruct (raise_for_status rsp) as [e|]; [done|]. simpl.
  destruct (project (resp_json rsp)) as [tag_data|e]; [|done]. simpl.
  destruct (enrich_spec tags) as [[o g] v] eqn:Hrest. simpl.
  specialize (IH {| ar_param := ar_param ar; ar_status := ar_status ar;
                    ar_message := ar_message ar;
                    ar_data := ar_data ar ++ [TagData tag_data];
                    ar_summary := ar_summary ar |}
                (λ u Hu, Hall u (list_elem_of_further _ _ _ Hu))).
  rewrite ?Hrest in IH. simpl in IH. done.
Qed.

(** After a failed lookup followed only by lookups that give a record,
    the [ActionResult] carries that failure. *)
Lemma enrich_spec_last_error (before after : list string) (t e : string)
    (rt : Response json) (ar : ActionResult) :
  (∀ u : string, u ∈ before → lookup_settles u = true) →
  tag (afapi world) t = Returned rt →
  raise_for_status rt = Some e →
  (∀ u : string, u ∈ after → is_Some (tag_record u)) →
  (enrich_spec (before ++ t :: after)).1.1 = Returned () ∧
  ar_status ((enrich_spec (before ++ t :: after)).1.2 ar) = APP_ERROR ∧
  ar_message ((enrich_spec (before ++ t :: after)).1.2 ar) = e.
Proof.
  intros Hbefore Ht He Hafter. revert ar.
  induction before as [|b before IH]; intros ar; simpl.
  - unfold lookup_result. rewrite Ht. simpl. rewrite He. simpl.
    destruct (enrich_spec after) as [[o g] v] eqn:Hrest. simpl.
    pose proof (enrich_spec_records_status after
                  {| ar_param := ar_param ar; ar_status := APP_ERROR; ar_message := e;
                     ar_data := ar_data ar; ar_summary := ar_summary ar |} Hafter) as H.
    rewrite ?Hrest in H. simpl in H. done.
  - pose proof (Hbefore b ltac:(left)) as Hb. unfold lookup_settles in Hb.
    destruct (lookup_result b) as [f|e']; [|done].
    specialize (IH (λ u Hu, Hbefore u (list_elem_of_further _ _ _ Hu)) (f ar)).
    destruct (enrich_spec (before ++ t :: after)) as [[o g] v]. simpl in *. done.
Qed.

(** *** Running [_samples_search_tag] *)

Lemma samples_search_tag_fail_run (body : json) (r : ref) (st : Connector)
    (ar0 : ActionResult) (e : string) :
  heap st !! r = Some ar0 →
  failure (samples_search_results (afapi world) body) = Some e →
  _samples_search_tag body r st =
    (Returned APP_ERROR,
     {| config := config st; action_identifier := action_identifier st;
        status := status st; message := message st;
        action_results := action_results st;
        heap := <[r := {| ar_param := ar_param ar0; ar_status := APP_ERROR;
                          ar_message := e; ar_data := ar_data ar0;
                          ar_summary := ar_summary ar0 |}]> (heap st);
        trace := trace st ++ [EvSearch body] |}).
Proof.
  intros Hr Hfail. unfold _samples_search_tag, json_dumps. run.
  rewrite Hfail. simpl. by rewrite (alter_lookup _ _ _ _ Hr).
Qed.

(** The run of [_samples_search_tag] past the search, in terms of the
    enrichment loop: when the loop returns, the count is written; when it
    raises, the [ActionResult] is left as the loop left it. *)
Lemma samples_search_tag_run (body : json) (r : ref) (st : Connector)
    (ar0 : ActionResult) :
  heap st !! r = Some ar0 →
  failure (samples_search_results (afapi world) body) = None →
  let tags := set_iter world
                (collect_tags (pages (samples_search_results (afapi world) body))) in
  _samples_search_tag body r st =
    match (enrich_spec tags).1.1 with
    | Returned _ =>
        (Returned APP_SUCCESS,
         {| config := config st; action_identifier := action_identifier st;
            status := status st; message := message st;
            action_results := action_results st;
            heap := <[r := summarise ((enrich_spec tags).1.2 ar0)]> (heap st);
            trace := trace st ++ EvSearch body :: (EvTag <$> (enrich_spec tags).2) |})
    | Raised e =>
        (Raised e,
         {| config := config st; action_identifier := action_identifier st;
            status := status st; message := message st;
            action_results := action_results st;
            heap := <[r := (enrich_spec tags).1.2 ar0]> (heap st);
            trace := trace st ++ EvSearch body :: (EvTag <$> (enrich_spec tags).2) |})
    end.
Proof.
  intros Hr Hfail tags. unfold _samples_search_tag, json_dumps. run.
  rewrite Hfail. simpl. fold tags. rewrite enrich_run.
  destruct (enrich_spec tags) as [[o f] v]. simpl.
  assert (r < length (heap st)) as Hlt by (by eapply lookup_lt_Some).
  destruct o as [[]|e]; run.
  - rewrite (alter_lookup _ _ _ _ Hr).
    rewrite list_lookup_total_insert_eq by done.
    rewrite (alter_lookup _ _ _ _ (list_lookup_insert_eq _ _ _ Hlt)).
    rewrite list_insert_insert_eq. by rewrite <- app_assoc.
  - rewrite (alter_lookup _ _ _ _ Hr). by rewrite <- app_assoc.
Qed.

(** *** The aggregation loops *)

Lemma add_tags_elem (tags : list string) (s : gset string) (t : string) :
  t ∈ add_tags tags s ↔ t ∈ s ∨ t ∈ tags.
Proof.
  unfold add_tags. revert s. induction tags as [|u tags IH]; intros s; simpl.
  - set_solver.
  - rewrite IH. set_solver.
Qed.

Lemma add_page_elem (hits : list Hit) (s : gset string) (t : string) :
  t ∈ add_page s hits ↔
  t ∈ s ∨ ∃ i tags, i ∈ hits ∧ source_tag i = Some tags ∧ t ∈ tags.
Proof.
  unfold add_page. revert s. induction hits as [|i hits IH]; intros s; simpl.
  - split; [by left|]. intros [?|(i & tags & Hi & _)]; [done|]. by inversion Hi.
  - rewrite IH. unfold add_hit. destruct (source_tag i) as [tags|] eqn:Htag.
    + rewrite add_tags_elem. split.
      * intros [[?|?]|(j & tj & Hj & ? & ?)]; [by left|right..].
        -- exists i, tags. split_and!; [left|done..].
        -- exists j, tj. split_and!; [by right|done..].
      * intros [?|(j & tj & Hj & Hs & ?)]; [by left; left|].
        apply elem_of_cons in Hj as [->|Hj].
        -- left; right. congruence.
        -- right. by exists j, tj.
    + split.
      * intros [?|(j & tj & Hj & ? & ?)]; [by left|right].
        exists j, tj. split_and!; [by right|done..].
      * intros [?|(j & tj & Hj & Hs & ?)]; [by left|].
        apply elem_of_cons in Hj as [->|Hj]; [congruence|].
        right. by exists j, tj.
Qed.

Lemma add_pages_elem (results : list (list Hit)) (s : gset string) (t : string) :
  t ∈ foldl add_page s results ↔
  t ∈ s ∨ ∃ hits i tags,
      hits ∈ results ∧ i ∈ hits ∧ source_tag i = Some tags ∧ t ∈ tags.
Proof.
  revert s. induction results as [|hits results IH]; intros s; simpl.
  - split; [by left|]. intros [?|(h & i & tags & Hh & _)]; [done|]. by inversion Hh.
  - rewrite IH, add_page_elem. split.
    + intros [[?|(i & tags & ? & ? & ?)]|(h & i & tags & ? & ? & ? & ?)].
      * by left.
      * right. exists hits, i, tags. split_and!; [left|done..].
      * right. exists h, i, tags. split_and!; [by right|done..].
    + intros [?|(h & i & tags & Hh & ? & ? & ?)]; [by left; left|].
      apply elem_of_cons in Hh as [->|Hh].
      * left; right. by exists i, tags.
      * right. by exists h, i, tags.
Qed.

(** *** The scope vocabulary *)

Lemma SCOPE_MAP_None (s : string) :
  SCOPE_MAP !! s = None ↔
  s ≠ "all samples" ∧ s ≠ "my samples" ∧ s ≠ "public samples".
Proof.
  unfold SCOPE_MAP. rewrite !lookup_insert_None, lookup_singleton_None. naive_solver.
Qed.

Lemma SCOPE_MAP_Some (s c : string) :
  SCOPE_MAP !! s = Some c ↔
  (s = "all samples" ∧ c = "global") ∨ (s = "my samples" ∧ c = "private")
  ∨ (s = "public samples" ∧ c = "public").
Proof.
  unfold SCOPE_MAP. rewrite !lookup_insert_Some, lookup_singleton_Some.
  split; [naive_solver|].
  intros [[-> ->]|[[-> ->]|[-> ->]]]; [by left| |].
  - right. split; [done|]. by left.
  - right. split; [done|]. right. done.
Qed.

(** *** Format strings *)

Lemma string_app_assoc (a b c : string) : a +:+ b +:+ c = (a +:+ b) +:+ c.
Proof.
  induction a as [|x a IH]; [done|].
  change (String x (a +:+ b +:+ c) = String x ((a +:+ b) +:+ c)). by rewrite IH.
Qed.

Lemma contains_app_l (pre s needle : string) :
  contains s needle → contains (pre +:+ s) needle.
Proof.
  intros (p & q & ->). exists (pre +:+ p), q. apply string_app_assoc.
Qed.

Lemma contains_here (needle post : string) : contains (needle +:+ post) needle.
Proof. by exists ""%string, post. Qed.

Lemma prefix_app (needle post : string) : String.prefix needle (needle +:+ post) = true.
Proof.
  induction needle as [|c needle IH]; [by destruct post|].
  change (String.prefix (String c needle) (String c (needle +:+ post)) = true).
  simpl. by destruct (ascii_dec c c).
Qed.

Lemma contains_b_complete (s needle : string) :
  contains s needle → contains_b s needle = true.
Proof.
  intros (pre & post & ->). induction pre as [|c pre IH].
  - change (contains_b (needle +:+ post) needle = true).
    pose proof (prefix_app needle post) as Hp.
    destruct (needle +:+ post); simpl in *; by rewrite Hp.
  - change (contains_b (String c (pre +:+ needle +:+ post)) needle = true).
    simpl. rewrite IH. apply orb_true_r.
Qed.

Lemma format_contains (template : list fmt_piece) (arg : string) :
  Field ∈ template → contains (format template arg) arg.
Proof.
  induction template as [|p template IH]; intros Hin; [by inversion Hin|].
  apply elem_of_cons in Hin as [<-|Hin]; simpl.
  - apply contains_here.
  - destruct p; apply contains_app_l; auto. 
Qed.

(** *** Running [_hunt_action] *)

Lemma hunt_no_key_run (field value_type : string) (param : gmap string string)
    (st : Connector) :
  config st !! AF_JSON_API_KEY = None →
  _hunt_action field value_type param st =
    (Raised (KeyError AF_JSON_API_KEY),
     hunt_state st (ActionResult_init param) []).
Proof.
  intros Hkey. unfold _hunt_action, _init_api. run.
  rewrite Hkey. simpl. unfold hunt_state. by rewrite app_nil_r.
Qed.

Lemma hunt_init_fail_run (field value_type : string) (param : gmap string string)
    (st : Connector) (api_key e : string) :
  config st !! AF_JSON_API_KEY = Some api_key →
  PanAFapi (afapi world) api_key = Some e →
  _hunt_action field value_type param st =
    (Returned APP_ERROR, hunt_state st (hunt_failure param e) [EvPanAFapi api_key]).
Proof.
  intros Hkey Hnew. unfold _hunt_action, _init_api. run.
  rewrite Hkey. simpl. rewrite Hnew. simpl.
  rewrite alter_snoc, lookup_total_snoc. reflexivity.
Qed.

Lemma hunt_invalid_scope_run (field value_type : string) (param : gmap string string)
    (st : Connector) (api_key : string) :
  init_succeeds st api_key →
  SCOPE_MAP !! scope_of param = None →
  _hunt_action field value_type param st =
    (Returned APP_ERROR,
     hunt_state st
       (hunt_failure param (format AF_ERR_INVALID_SCOPE (scope_of param)))
       [EvPanAFapi api_key]).
Proof.
  intros [Hkey Hnew] Hscope. unfold _hunt_action, _init_api. run.
  rewrite Hkey. simpl. rewrite Hnew. simpl.
  fold (scope_of param). rewrite Hscope.
  destruct (bool_decide _); simpl; rewrite alter_snoc; reflexivity.
Qed.

Lemma hunt_no_value_run (field value_type : string) (param : gmap string string)
    (st : Connector) (api_key scope : string) :
  init_succeeds st api_key →
  SCOPE_MAP !! scope_of param = Some scope →
  param !! value_type = None →
  _hunt_action field value_type param st =
    (Raised (KeyError value_type),
     hunt_state st (ActionResult_init param) [EvPanAFapi api_key]).
Proof.
  intros [Hkey Hnew] Hscope Hvalue. unfold _hunt_action, _init_api. run.
  rewrite Hkey. simpl. rewrite Hnew. simpl.
  fold (scope_of param). by rewrite Hscope, Hvalue.
Qed.

Lemma hunt_search_fail_run (field value_type : string) (param : gmap string string)
    (st : Connector) (api_key scope value e : string) :
  init_succeeds st api_key →
  SCOPE_MAP !! scope_of param = Some scope →
  param !! value_type = Some value →
  failure (samples_search_results (afapi world) (hunt_body field value scope)) = Some e →
  _hunt_action field value_type param st =
    (Returned APP_ERROR,
     hunt_state st (hunt_failure param e)
       [EvPanAFapi api_key; EvProgress "Querying AutoFocus";
        EvSearch (hunt_body field value scope)]).
Proof.
  intros [Hkey Hnew] Hscope Hvalue Hfail.
  unfold _hunt_action, _init_api, _samples_search_tag, json_dumps. run.
  rewrite Hkey. simpl. rewrite Hnew. simpl.
  fold (scope_of param). rewrite Hscope, Hvalue. simpl.
  fold (hunt_body field value scope). rewrite Hfail. simpl.
  rewrite alter_snoc, lookup_total_snoc. simpl.
  unfold hunt_state. by rewrite <- !app_assoc.
Qed.

Lemma hunt_enrich_run (field value_type : string) (param : gmap string string)
    (st : Connector) (api_key scope value : string) :
  init_succeeds st api_key →
  SCOPE_MAP !! scope_of param = Some scope →
  param !! value_type = Some value →
  failure (samples_search_results (afapi world) (hunt_body field value scope)) = None →
  let tags := hunt_tags field value scope in
  let ar := (enrich_spec tags).1.2 (ActionResult_init param) in
  let evs := [EvPanAFapi api_key; EvProgress "Querying AutoFocus";
              EvSearch (hunt_body field value scope)]
             ++ (EvTag <$> (enrich_spec tags).2) in
  _hunt_action field value_type param st =
    match (enrich_spec tags).1.1 with
    | Returned _ => (Returned APP_SUCCESS, hunt_state st (hunt_result ar) evs)
    | Raised e => (Raised e, hunt_state st ar evs)
    end.
Proof.
  intros [Hkey Hnew] Hscope Hvalue Hfail tags ar evs.
  unfold _hunt_action, _init_api, _samples_search_tag, json_dumps. run.
  rewrite Hkey. simpl. rewrite Hnew. simpl.
  fold (scope_of param). rewrite Hscope, Hvalue. simpl.
  fold (hunt_body field value scope). rewrite Hfail. simpl.
  fold (hunt_tags field value scope). fold tags.
  rewrite enrich_run. subst ar evs.
  destruct (enrich_spec tags) as [[o f] v]. simpl.
  destruct o as [[]|e]; run.
  - rewrite !alter_snoc, !lookup_total_snoc. simpl.
    unfold hunt_state, hunt_result. by rewrite <- !app_assoc.
  - rewrite !alter_snoc. unfold hunt_state. by rewrite <- !app_assoc.
Qed.

Lemma hunt_action_spec (field value_type : string) (param : gmap string string)
    (st : Connector) :
  _hunt_action field value_type param st = hunt_spec field value_type param st.
Proof.
  unfold hunt_spec.
  destruct (config st !! AF_JSON_API_KEY) as [api_key|] eqn:Hkey;
    [|by apply hunt_no_key_run].
  destruct (PanAFapi (afapi world) api_key) as [e|] eqn:Hnew;
    [by eapply hunt_init_fail_run|].
  assert (init_succeeds st api_key) as Hinit by done.
  destruct (SCOPE_MAP !! scope_of param) as [scope|] eqn:Hscope;
    [|by apply hunt_invalid_scope_run].
  destruct (param !! value_type) as [value|] eqn:Hvalue;
    [|by eapply hunt_no_value_run].
  simpl.
  destruct (failure _) as [e|] eqn:Hfail.
  - by eapply hunt_search_fail_run.
  - rewrite (hunt_enrich_run _ _ _ _ _ _ _ Hinit Hscope Hvalue Hfail).
    by destruct (enrich_spec (hunt_tags field value scope)) as [[o f] v].
Qed.

(** *** Running [_test_connectivity] *)

Lemma test_connectivity_spec (st : Connector) :
  _test_connectivity st = test_spec st.
Proof.
  unfold test_spec, _test_connectivity, _init_api, _validate_api_call. run.
  destruct (config st !! AF_JSON_API_KEY) as [api_key|]; simpl; [|done].
  destruct (PanAFapi (afapi world) api_key) as [e|]; simpl.
  { rewrite alter_snoc. unfold test_state. by rewrite <- !app_assoc. }
  destruct (export (afapi world)) as [r|e]; simpl.
  2:{ unfold test_state. by rewrite <- !app_assoc. }
  destruct (raise_for_status r) as [e|]; simpl.
  { rewrite alter_snoc, lookup_total_snoc. simpl.
    unfold test_state. by rewrite <- !app_assoc. }
  unfold quota_of, outcome_bind, outcome_ret.
  destruct (subscript (resp_json r) "bucket_info") as [j|e]; simpl.
  2:{ unfold test_state. by rewrite <- !app_assoc. }
  destruct (subscript j "daily_points_remaining") as [remaining|e]; simpl.
  2:{ unfold test_state. by rewrite <- !app_assoc. }
  destruct (subscript j "daily_points") as [total|e]; simpl.
  2:{ unfold test_state. by rewrite <- !app_assoc. }
  unfold test_state, points_message. by rewrite <- !app_assoc.
Qed.

(** *** More on the enrichment loop *)

(** A lookup that fails the validation is one the loop gets past. *)
Lemma lookup_fails_settles (t : string) :
  lookup_fails t = true → lookup_settles t = true.
Proof.
  unfold lookup_fails, lookup_settles, lookup_result.
  destruct (tag (afapi world) t) as [rsp|e]; [|done]. simpl.
  by destruct (raise_for_status rsp).
Qed.

(** A lookup that gives a record is one the loop gets past. *)
Lemma tag_record_settles (t : string) :
  is_Some (tag_record t) → lookup_settles t = true.
Proof.
  unfold tag_record, lookup_settles, lookup_result. intros [rec Hrec].
  destruct (tag (afapi world) t) as [rsp|e]; [|done]. simpl.
  destruct (raise_for_status rsp); [done|]. simpl.
  by destruct (project (resp_json rsp)).
Qed.

(** The loop returns only when every lookup settles. *)
Lemma enrich_spec_returns (tags : list string) (u : unit) :
  (enrich_spec tags).1.1 = Returned u →
  ∀ t : string, t ∈ tags → lookup_settles t = true.
Proof.
  induction tags as [|t tags IH]; simpl; intros Hret x Hx; [by inversion Hx|].
  unfold lookup_settles at 1.
  destruct (lookup_result t) as [f|e] eqn:Ht; [|done].
  destruct (enrich_spec tags) as [[o g] v]. simpl in *.
  apply elem_of_cons in Hx as [->|Hx].
  - unfold lookup_settles. by rewrite Ht.
  - by apply IH.
Qed.

(** The loop never sets the success status. *)
Lemma enrich_spec_status (tags : list string) (ar : ActionResult) :
  ar_status ar = APP_ERROR →
  ar_status ((enrich_spec tags).1.2 ar) = APP_ERROR.
Proof.
  revert ar. induction tags as [|t tags IH]; intros ar Har; [done|]. simpl.
  destruct (lookup_result t) as [f|e] eqn:Ht; [|done].
  pose proof (IH (f ar)) as IH'.
  destruct (enrich_spec tags) as [[o g] v]. simpl in *. apply IH'.
  unfold lookup_result in Ht. destruct (tag (afapi world) t) as [rsp|e]; [|done].
  simpl in Ht. destruct (raise_for_status rsp); simpl in Ht.
  - by injection Ht as <-.
  - destruct (project (resp_json rsp)); [|done]. by injection Ht as <-.
Qed.

(** The result of a hunt whose lookups all settle. *)
Lemma hunt_result_settled (tags : list string) (param : gmap string string) :
  (∀ t : string, t ∈ tags → lookup_settles t = true) →
  (enrich_spec tags).1.1 = Returned () ∧
  (enrich_spec tags).2 = tags ∧
  hunt_result ((enrich_spec tags).1.2 (ActionResult_init param)) =
    {| ar_param := param; ar_status := APP_SUCCESS; ar_message := "";
       ar_data := omap tag_record tags;
       ar_summary :=
         {[ "total_tags_matched" := Z.of_nat (length (omap tag_record tags)) ]} |}.
Proof.
  intros Hall. destruct (enrich_spec_settles tags Hall) as [Hret Hvis].
  split; [done|]. split; [done|].
  destruct (enrich_spec_frame tags (ActionResult_init param)) as (Hp & Hs & Hd).
  rewrite Hvis in Hd. simpl in Hp, Hs, Hd.
  unfold hunt_result. rewrite Hp, Hs, Hd. by rewrite (right_id_L ∅ (∪)).
Qed.

(** ** The claims *)

(** C1 (the code at the failing inputs).  A hunt whose scope, after
    lower-casing, is already one of the canonical names "global",
    "private" or "public" is rejected: [SCOPE_MAP] has no such key, the
    [except KeyError] branch tests the name against the map's values, does
    nothing with the answer and returns the invalid-scope error.  No
    request body is built and no search is issued. *)
Theorem hunt_canonical_scope_rejected (field value_type : string)
    (param : gmap string string) (st : Connector) (api_key : string) :
  init_succeeds st api_key →
  scope_of param ∈ ["global"; "private"; "public"] →
  _hunt_action field value_type param st =
    (Returned APP_ERROR,
     hunt_state st
       (hunt_failure param (format AF_ERR_INVALID_SCOPE (scope_of param)))
       [EvPanAFapi api_key]).
Proof.
  intros Hinit Hscope. apply hunt_invalid_scope_run; [done|].
  apply SCOPE_MAP_None.
  repeat (apply elem_of_cons in Hscope as [->|Hscope]; [done|]).
  by inversion Hscope.
Qed.

(** C2 (amended).  An enrichment run over the [N] tags of the aggregated
    set, started on an [ActionResult] without data, in which every lookup
    settles: the call returns a response, and the response fails the status
    validation, as [K] of them do, or carries the four fields of a tag.
    Then every tag is looked up, failing or not; the result holds the
    records of the tags that passed, [N - K] of them; and the summary value
    [total_tags_matched] is [N - K]. *)
Theorem enrichment_skips_failed_lookups (body : json) (r : ref) (st : Connector)
    (ar0 : ActionResult) :
  set_iter_ok world →
  heap st !! r = Some ar0 →
  ar_data ar0 = [] →
  failure (samples_search_results (afapi world) body) = None →
  let tag_set := collect_tags (pages (samples_search_results (afapi world) body)) in
  (∀ t : string, t ∈ tag_set → lookup_settles t = true) →
  let N := size tag_set in
  let K := length (filter (λ t, lookup_fails t) (elements tag_set)) in
  ∃ (st' : Connector) (ar : ActionResult),
    _samples_search_tag body r st = (Returned APP_SUCCESS, st') ∧
    heap st' !! r = Some ar ∧
    trace st' = trace st ++ EvSearch body :: (EvTag <$> set_iter world tag_set) ∧
    ar_data ar = omap tag_record (set_iter world tag_set) ∧
    (K ≤ N)%nat ∧
    length (ar_data ar) = N - K ∧
    ar_summary ar !! "total_tags_matched" = Some (Z.of_nat (N - K)).
Proof.
  intros Hiter Hr Hdata Hfail tag_set Hall N K.
  set (tags := set_iter world tag_set).
  assert (∀ t : string, t ∈ tags → lookup_settles t = true) as Hall'.
  { intros t Ht. apply Hall. unfold tags in Ht. rewrite (Hiter tag_set) in Ht.
    by apply elem_of_elements. }
  destruct (enrich_spec_settles tags Hall') as [Hret Hvis].
  pose proof (samples_search_tag_run body r st ar0 Hr Hfail) as Hrun.
  cbv zeta in Hrun. fold tag_set in Hrun. fold tags in Hrun.
  rewrite Hret, Hvis in Hrun.
  destruct (enrich_spec_frame tags ar0) as (Hp & Hs & Hd).
  rewrite Hvis, Hdata in Hd. simpl in Hd.
  pose proof (settled_count tags Hall') as Hcount.
  assert (length (filter (λ t, lookup_fails t) tags) = K) as HK.
  { unfold K, tags. by rewrite (Hiter tag_set). }
  assert (length tags = N) as HN.
  { unfold N, size, set_size, tags. simpl. by rewrite (Hiter tag_set). }
  assert (length (omap tag_record tags) = N - K ∧ (K ≤ N)%nat) as [Hlen HKN] by lia.
  eexists _, (summarise ((enrich_spec tags).1.2 ar0)).
  split; [exact Hrun|]. simpl.
  split; [apply list_lookup_insert_eq; by eapply lookup_lt_Some|].
  unfold summarise. cbn [ar_data ar_summary]. rewrite Hd.
  split_and!; try done.
  rewrite lookup_union_l'; [|by rewrite lookup_singleton_eq].
  rewrite lookup_singleton_eq. by rewrite Hlen.
Qed.

(** C3.  The tag set aggregated from a search result has no duplicates,
    as a set and as the loop over it visits it, and holds exactly the tags
    that occur in the tag list of some hit of some page; a hit without a
    tag list leaves the set as it is. *)
Theorem aggregated_tags_are_union (results : list (list Hit)) :
  set_iter_ok world →
  NoDup (elements (collect_tags results)) ∧
  NoDup (set_iter world (collect_tags results)) ∧
  (∀ t : string,
     t ∈ collect_tags results ↔
     ∃ hits i tags,
       hits ∈ results ∧ i ∈ hits ∧ source_tag i = Some tags ∧ t ∈ tags) ∧
  (∀ (tag_set : gset string) (i : Hit),
     source_tag i = None → add_hit tag_set i = tag_set).
Proof.
  intros Hiter. split_and!.
  - apply NoDup_elements.
  - rewrite (Hiter _). apply NoDup_elements.
  - intros t. unfold collect_tags. rewrite add_pages_elem. set_solver.
  - intros s i Hi. unfold add_hit. by rewrite Hi.
Qed.

(** C4 (amended).  When API initialisation goes through and the scope,
    after lower-casing, is none of the six vocabulary strings, the hunt
    returns the error status; its [ActionResult] carries
    [AF_ERR_INVALID_SCOPE] formatted with the scope, which names the scope
    whenever the template has a replacement field; and the run issues no
    remote call: the only event is the construction of the client. *)
Theorem hunt_unknown_scope_fails (field value_type : string)
    (param : gmap string string) (st : Connector) (api_key : string) :
  init_succeeds st api_key →
  scope_of param ∉ scope_vocabulary →
  ∃ (st' : Connector) (ar : ActionResult) (evs : list event),
    _hunt_action field value_type param st = (Returned APP_ERROR, st') ∧
    action_results st' = action_results st ++ [length (heap st)] ∧
    heap st' = heap st ++ [ar] ∧
    ar_status ar = APP_ERROR ∧
    ar_message ar = format AF_ERR_INVALID_SCOPE (scope_of param) ∧
    (Field ∈ AF_ERR_INVALID_SCOPE → contains (ar_message ar) (scope_of param)) ∧
    ar_data ar = [] ∧
    trace st' = trace st ++ evs ∧
    Forall (λ ev, is_remote_call ev = false) evs.
Proof.
  intros Hinit Hscope. eexists _, _, _.
  split; [apply hunt_invalid_scope_run; [done|]|].
  - apply SCOPE_MAP_None. unfold scope_vocabulary in Hscope.
    rewrite !not_elem_of_cons in Hscope. naive_solver.
  - simpl. split_and!; try done.
    + apply format_contains.
    + by repeat constructor.
Qed.

(** C5.  When the search stream raises [e], whatever pages it delivered
    before, the hunt returns the error status; its [ActionResult] carries
    [e] as message, no data and no summary; and no tag lookup is issued:
    the events are the construction of the client, the progress message
    and the search. *)
Theorem hunt_search_error_discards_tags (field value_type : string)
    (param : gmap string string) (st : Connector) (api_key scope value e : string) :
  init_succeeds st api_key →
  SCOPE_MAP !! scope_of param = Some scope →
  param !! value_type = Some value →
  failure (samples_search_results (afapi world) (hunt_body field value scope)) = Some e →
  ∃ (st' : Connector) (ar : ActionResult),
    _hunt_action field value_type param st = (Returned APP_ERROR, st') ∧
    action_results st' = action_results st ++ [length (heap st)] ∧
    heap st' = heap st ++ [ar] ∧
    ar_status ar = APP_ERROR ∧
    ar_message ar = e ∧
    ar_data ar = [] ∧
    ar_summary ar = ∅ ∧
    trace st' = trace st ++ [EvPanAFapi api_key; EvProgress "Querying AutoFocus";
                             EvSearch (hunt_body field value scope)].
Proof.
  intros Hinit Hscope Hvalue Hfail. eexists _, _.
  split; [by eapply hunt_search_fail_run|]. by simpl.
Qed.

(** C6.  [_construct_body] is a total function without effects: called
    with start 0 and size 4000 it returns the dict with exactly the keys
    scope, from, size, sort and query and the values below.  Every search
    a hunt issues carries such a body, with start 0 and size 4000, built
    from the value parameter, the field of the hunt variant and the
    resolved scope. *)
Theorem construct_body_exact (value field scope : string) :
  _construct_body value field 0 4000 scope =
    JDict {[ "scope" := JStr scope;
             "from" := JInt 0;
             "size" := JInt 4000;
             "sort" := JDict {[ "create_date" := JDict {[ "order" := JStr "desc" ]} ]};
             "query" :=
               JDict {[ "operator" := JStr "all";
                        "children" :=
                          JList [JDict {[ "field" := JStr field;
                                          "operator" := JStr "contains";
                                          "value" := JStr value ]}] ]} ]}
  ∧ ∀ (value_type : string) (param : gmap string string) (st : Connector),
      ∃ evs : list event,
        trace (_hunt_action field value_type param st).2 = trace st ++ evs ∧
        ∀ body : json,
          EvSearch body ∈ evs →
          ∃ v sc : string,
            param !! value_type = Some v ∧
            SCOPE_MAP !! scope_of param = Some sc ∧
            body = _construct_body v field 0 4000 sc.
Proof.
  split.
  - unfold _construct_body. f_equal.
  - intros value_type param st. rewrite hunt_action_spec. unfold hunt_spec.
    repeat case_match; simpl; eexists; (split; [done|]); intros body Hin;
      repeat match goal with
        | H : _ ∈ [] |- _ => by inversion H
        | H : _ ∈ _ :: _ |- _ => apply elem_of_cons in H as [H|H]
        | H : EvSearch _ = EvSearch _ |- _ => inversion H; subst; clear H
        | H : EvSearch _ = _ |- _ => discriminate H
        | H : _ ∈ _ <$> _ |- _ => apply list_elem_of_fmap in H as (? & ? & _)
        end;
      try done; by eexists _, _.
Qed.

(** C7.  For an action identifier that is none of the six the dispatcher
    knows, [handle_action] returns the success status it starts from and
    leaves the connector as it found it: no handler runs, no
    [ActionResult] is added and nothing is logged. *)
Theorem unknown_action_is_noop (param : gmap string string) (st : Connector) :
  action_identifier st ∉ known_actions →
  handle_action param st = (Returned APP_SUCCESS, st).
Proof.
  unfold known_actions. rewrite !not_elem_of_cons.
  intros (H1 & H2 & H3 & H4 & H5 & H6 & _).
  unfold handle_action, get_action_identifier, mbind, M_bind. simpl.
  by rewrite !bool_decide_eq_false_2.
Qed.

(** C8 (amended).  The connectivity test returns the success status
    exactly when API initialisation goes through, the export call returns a
    response that passes the status validation, and the reply carries
    [bucket_info] with its two counters; it sets the connector's status to
    success then.  When initialisation goes through and the export response
    raises [e] on validation, the test returns the error status, and [e]
    is saved as a progress message before the connector's status is set
    to error, which is the last thing the test does. *)
Theorem connectivity_test_success_iff (st : Connector) :
  ((_test_connectivity st).1 = Returned APP_SUCCESS ↔
     (∃ api_key : string, init_succeeds st api_key) ∧
     ∃ (r : Response json) (remaining total : json),
       export (afapi world) = Returned r ∧
       raise_for_status r = None ∧
       quota_of (resp_json r) = Returned (remaining, total))
  ∧ ((_test_connectivity st).1 = Returned APP_SUCCESS →
     status (_test_connectivity st).2 = APP_SUCCESS)
  ∧ ∀ (api_key e : string) (r : Response json),
      init_succeeds st api_key →
      export (afapi world) = Returned r →
      raise_for_status r = Some e →
      (_test_connectivity st).1 = Returned APP_ERROR ∧
      status (_test_connectivity st).2 = APP_ERROR ∧
      trace (_test_connectivity st).2 =
        trace st ++ [EvProgress "Starting connectivity test"; EvPanAFapi api_key;
                     EvProgress "Making a request to PAN AutoFocus"; EvExport;
                     EvProgress e; EvProgress "Test Connectivity failed";
                     EvStatus APP_ERROR ""].
Proof.
  rewrite test_connectivity_spec. unfold test_spec, init_succeeds.
  destruct (config st !! AF_JSON_API_KEY) as [api_key|] eqn:Hkey.
  2:{ simpl. split_and!.
      - split; [done|]. intros [[k [Hk _]] _]. congruence.
      - done.
      - intros k e r [Hk _]. congruence. }
  destruct (PanAFapi (afapi world) api_key) as [e0|] eqn:Hnew.
  { simpl. split_and!.
    - split; [done|]. intros [[k [Hk Hn]] _]. congruence.
    - done.
    - intros k e r [Hk Hn]. congruence. }
  destruct (export (afapi world)) as [r0|e0] eqn:Hexp.
  2:{ simpl. split_and!.
      - split; [done|]. by intros [_ (r & a & b & ? & _)].
      - done.
      - by intros k e r _ ?. }
  destruct (raise_for_status r0) as [e0|] eqn:Hval.
  { simpl. split_and!.
    - split; [done|]. intros [_ (r & a & b & [= <-] & ? & _)]. congruence.
    - done.
    - intros k e r [Hk _] [= <-] He. by simplify_eq. }
  destruct (quota_of (resp_json r0)) as [[remaining total]|e0] eqn:Hquota.
  - simpl. split_and!.
    + split; [|done]. intros _. split; [by exists api_key|].
      by exists r0, remaining, total.
    + done.
    + intros k e r _ [= <-] He. congruence.
  - simpl. split_and!.
    + split; [done|]. intros [_ (r & a & b & [= <-] & _ & ?)]. congruence.
    + done.
    + intros k e r _ [= <-] He. congruence.
Qed.

(** C10 (amended).  A hunt in which initialisation, scope resolution and
    the search go through, and in which every lookup settles (the call
    returns a response, which fails the status validation or carries the
    four fields of a tag), returns the success status: its [ActionResult]
    ends with the success status and an empty message, so an error left by
    a skipped tag does not survive.  When every lookup the loop issues
    fails the validation, the result has no data and [total_tags_matched]
    is 0. *)
Theorem hunt_succeeds_despite_failed_lookups (field value_type : string)
    (param : gmap string string) (st : Connector) (api_key scope value : string) :
  init_succeeds st api_key →
  SCOPE_MAP !! scope_of param = Some scope →
  param !! value_type = Some value →
  failure (samples_search_results (afapi world) (hunt_body field value scope)) = None →
  (∀ t : string, t ∈ hunt_tags field value scope → lookup_settles t = true) →
  ∃ (st' : Connector) (ar : ActionResult),
    _hunt_action field value_type param st = (Returned APP_SUCCESS, st') ∧
    action_results st' = action_results st ++ [length (heap st)] ∧
    heap st' = heap st ++ [ar] ∧
    ar_status ar = APP_SUCCESS ∧
    ar_message ar = "" ∧
    ((∀ t : string, t ∈ hunt_tags field value scope → lookup_fails t = true) →
     ar_data ar = [] ∧ ar_summary ar !! "total_tags_matched" = Some 0%Z).
Proof.
  intros Hinit Hscope Hvalue Hfail Hall.
  pose proof (hunt_enrich_run field value_type param st api_key scope value
                Hinit Hscope Hvalue Hfail) as Hrun.
  cbv zeta in Hrun.
  destruct (hunt_result_settled (hunt_tags field value scope) param Hall)
    as (Hret & Hvis & Hres).
  rewrite Hret, Hres in Hrun.
  eexists _, _. split; [exact Hrun|]. split_and!; [done..|].
  intros Hfails. cbn [ar_data ar_summary].
  rewrite (all_fail_no_record _ Hfails). split; [done|].
  by rewrite lookup_singleton_eq.
Qed.

(** ** Further properties of the code *)

(** *** [_validate_api_call] and [_init_api] *)

(** A failed validation changes the status and the message of the
    [ActionResult] it is given and nothing else: its data, summary and
    parameters stay, no other object is touched and nothing is logged.  A
    validation that passes leaves the store as it is. *)
Theorem validate_api_call_keeps_data {J : Type} (response : Response J) (r : ref)
    (st : Connector) (ar0 : ActionResult) :
  heap st !! r = Some ar0 →
  ∃ st' : Connector,
    _validate_api_call response r st
    = (Returned (bool_decide (raise_for_status response = None)), st') ∧
    (raise_for_status response = None → st' = st) ∧
    (∀ e : string, raise_for_status response = Some e →
       heap st' !! r = Some {| ar_param := ar_param ar0; ar_status := APP_ERROR;
                               ar_message := e; ar_data := ar_data ar0;
                               ar_summary := ar_summary ar0 |}) ∧
    (∀ r' : ref, r' ≠ r → heap st' !! r' = heap st !! r') ∧
    trace st' = trace st ∧
    action_results st' = action_results st ∧
    status st' = status st ∧
    message st' = message st.
Proof.
  intros Hr. unfold ref in *. unfold _validate_api_call.
  destruct (raise_for_status response) as [e|] eqn:Hresp.
  - run. eexists. split; [done|]. simpl. split_and!; try done.
    + intros e' [= <-]. rewrite list_lookup_alter_eq, Hr. done.
    + intros r' Hne. by rewrite list_lookup_alter_ne.
  - run. exists st. split_and!; try done.
Qed.

(** [_init_api] returns the success status exactly when the key is
    configured and the client is constructed without an exception, and it
    leaves every [ActionResult] alone then.  Without a configured key it
    raises [KeyError] and does nothing else: no client is constructed.  With
    a key it constructs the client once, with that key. *)
Theorem init_api_outcomes (r : ref) (st : Connector) :
  ((_init_api r st).1 = Returned APP_SUCCESS ↔
     ∃ api_key : string, init_succeeds st api_key) ∧
  ((_init_api r st).1 = Returned APP_SUCCESS → heap (_init_api r st).2 = heap st) ∧
  (config st !! AF_JSON_API_KEY = None →
     _init_api r st = (Raised (KeyError AF_JSON_API_KEY), st)) ∧
  (∀ api_key : string,
     config st !! AF_JSON_API_KEY = Some api_key →
     trace (_init_api r st).2 = trace st ++ [EvPanAFapi api_key]).
Proof.
  unfold _init_api, init_succeeds. run.
  destruct (config st !! AF_JSON_API_KEY) as [k|] eqn:Hkey; simpl.
  - destruct (PanAFapi (afapi world) k) as [e|] eqn:Hnew; simpl.
    + split_and!; try done.
      * split; [done|]. intros (k' & [= <-] & Hk'). congruence.
      * by intros k' [= <-].
    + split_and!; try done.
      * split; [|done]. intros _. by exists k.
      * by intros k' [= <-].
  - split_and!; try done.
    split; [done|]. by intros (k' & ? & _).
Qed.

(** *** [_construct_body] *)

(** The request body determines the five arguments it was built from: two
    calls that return the same body were given the same value, field,
    start, size and scope. *)
Theorem construct_body_inj (value field scope value' field' scope' : string)
    (start size start' size' : Z) :
  _construct_body value field start size scope
  = _construct_body value' field' start' size' scope' →
  value = value' ∧ field = field' ∧ start = start' ∧ size = size' ∧ scope = scope'.
Proof.
  intros Hbody.
  pose proof (f_equal (λ j, match j with JDict d => d !! "scope" | _ => None end)
                Hbody) as Hscope.
  pose proof (f_equal (λ j, match j with JDict d => d !! "from" | _ => None end)
                Hbody) as Hfrom.
  pose proof (f_equal (λ j, match j with JDict d => d !! "size" | _ => None end)
                Hbody) as Hsize.
  pose proof (f_equal
                (λ j, match j with
                      | JDict d =>
                          match d !! "query" with
                          | Some (JDict q) =>
                              match q !! "children" with
                              | Some (JList [JDict c]) => (c !! "field", c !! "value")
                              | _ => (None, None)
                              end
                          | _ => (None, None)
                          end
                      | _ => (None, None)
                      end) Hbody) as Hquery.
  vm_compute in Hscope, Hfrom, Hsize, Hquery.
  by simplify_eq.
Qed.

(** *** The aggregation of tags *)

Lemma collect_tags_elem_hits (results : list (list Hit)) (t : string) :
  t ∈ collect_tags results ↔
  ∃ i tags, i ∈ all_hits results ∧ source_tag i = Some tags ∧ t ∈ tags.
Proof.
  unfold collect_tags, all_hits. rewrite add_pages_elem. split.
  - intros [?|(hits & i & tags & Hh & Hi & Hs & Ht)]; [set_solver|].
    exists i, tags. split_and!; [|done..]. apply list_elem_of_join. by exists hits.
  - intros (i & tags & (hits & Hi & Hh)%list_elem_of_join & Hs & Ht).
    right. by exists hits, i, tags.
Qed.

(** The aggregated set depends on the hits only, not on how the service
    cuts them into pages nor on their order: two search results with the
    same hits up to order give the same set. *)
Theorem collect_tags_ignores_paging (results results' : list (list Hit)) :
  all_hits results ≡ₚ all_hits results' →
  collect_tags results = collect_tags results'.
Proof.
  intros Hperm. apply set_eq. intros t. rewrite !collect_tags_elem_hits.
  by setoid_rewrite Hperm.
Qed.

(** Aggregating over more pages adds tags and never removes one: the set
    of a result followed by another is the union of their sets. *)
Theorem collect_tags_app (results results' : list (list Hit)) :
  collect_tags (results ++ results') = collect_tags results ∪ collect_tags results'.
Proof.
  apply set_eq. intros t. rewrite elem_of_union, !collect_tags_elem_hits.
  unfold all_hits. rewrite join_app. setoid_rewrite elem_of_app. naive_solver.
Qed.

(** *** [_samples_search_tag] *)

(** [_samples_search_tag] returns the success status even when lookups
    failed the validation, and leaves the error of the last failed lookup on
    the [ActionResult]: if the loop gets past the tags before [t], the
    lookup of [t] returns a response that raises [e] on validation, and
    every tag after it gives a record, the call returns success while the
    object says error with message [e]. *)
Theorem samples_search_tag_leaves_last_error (body : json) (r : ref) (st : Connector)
    (ar0 : ActionResult) (before after : list string) (t e : string)
    (rt : Response json) :
  heap st !! r = Some ar0 →
  failure (samples_search_results (afapi world) body) = None →
  set_iter world (collect_tags (pages (samples_search_results (afapi world) body)))
  = before ++ t :: after →
  (∀ u : string, u ∈ before → lookup_settles u = true) →
  tag (afapi world) t = Returned rt →
  raise_for_status rt = Some e →
  (∀ u : string, u ∈ after → is_Some (tag_record u)) →
  ∃ (st' : Connector) (ar : ActionResult),
    _samples_search_tag body r st = (Returned APP_SUCCESS, st') ∧
    heap st' !! r = Some ar ∧
    ar_status ar = APP_ERROR ∧
    ar_message ar = e.
Proof.
  intros Hr Hfail Htags Hbefore Ht He Hafter.
  pose proof (samples_search_tag_run body r st ar0 Hr Hfail) as Hrun.
  cbv zeta in Hrun. rewrite Htags in Hrun.
  destruct (enrich_spec_last_error before after t e rt ar0 Hbefore Ht He Hafter)
    as (Hret & Hstatus & Hmsg).
  rewrite Hret in Hrun.
  eexists _, (summarise ((enrich_spec (before ++ t :: after)).1.2 ar0)).
  split; [exact Hrun|]. simpl. split.
  - apply list_lookup_insert_eq. by eapply lookup_lt_Some.
  - done.
Qed.

(** On an [ActionResult] that already holds data and a summary, a run of
    [_samples_search_tag] in which every lookup settles appends: the data it
    found stay in front, in their order, followed by the records of the tags
    in the order of the loop; the other keys of the summary stay, and
    [total_tags_matched] counts all the data, old and new.  When every
    lookup gives a record, status and message stay as they were.  No other
    object of the heap changes. *)
Theorem samples_search_tag_appends (body : json) (r : ref) (st : Connector)
    (ar0 : ActionResult) :
  heap st !! r = Some ar0 →
  failure (samples_search_results (afapi world) body) = None →
  let tags :=
    set_iter world (collect_tags (pages (samples_search_results (afapi world) body))) in
  (∀ u : string, u ∈ tags → lookup_settles u = true) →
  ∃ (st' : Connector) (ar : ActionResult),
    _samples_search_tag body r st = (Returned APP_SUCCESS, st') ∧
    heap st' !! r = Some ar ∧
    ar_data ar = ar_data ar0 ++ omap tag_record tags ∧
    ar_param ar = ar_param ar0 ∧
    ar_summary ar !! "total_tags_matched" = Some (Z.of_nat (length (ar_data ar))) ∧
    (∀ k : string, k ≠ "total_tags_matched" → ar_summary ar !! k = ar_summary ar0 !! k) ∧
    ((∀ u : string, u ∈ tags → is_Some (tag_record u)) →
     ar_status ar = ar_status ar0 ∧ ar_message ar = ar_message ar0) ∧
    (∀ r' : ref, r' ≠ r → heap st' !! r' = heap st !! r') ∧
    length (heap st') = length (heap st).
Proof.
  intros Hr Hfail tags Hall. unfold ref in *.
  pose proof (samples_search_tag_run body r st ar0 Hr Hfail) as Hrun.
  cbv zeta in Hrun. fold tags in Hrun.
  destruct (enrich_spec_settles tags Hall) as [Hret Hvis].
  destruct (enrich_spec_frame tags ar0) as (Hp & Hs & Hd).
  rewrite Hret, Hvis in Hrun. rewrite Hvis in Hd.
  eexists _, (summarise ((enrich_spec tags).1.2 ar0)).
  split; [exact Hrun|]. simpl. split_and!.
  - apply list_lookup_insert_eq. by eapply lookup_lt_Some.
  - done.
  - done.
  - rewrite lookup_union_l'; [|by rewrite lookup_singleton_eq].
    by rewrite lookup_singleton_eq.
  - intros k Hk. rewrite lookup_union_r by (by rewrite lookup_singleton_ne).
    by rewrite Hs.
  - intros Hrec. by destruct (enrich_spec_records_status tags ar0 Hrec) as (_ & ? & ?).
  - intros r' Hne. by rewrite list_lookup_insert_ne.
  - by rewrite length_insert.
Qed.

(** A search that goes through without a single tagged hit, on no page
    or on pages whose hits carry no tag or an empty tag list, is a success
    with no tag lookup at all: the data stay as they were and
    [total_tags_matched] is their number. *)
Theorem samples_search_tag_no_tags (body : json) (r : ref) (st : Connector)
    (ar0 : ActionResult) :
  set_iter_ok world →
  heap st !! r = Some ar0 →
  failure (samples_search_results (afapi world) body) = None →
  (∀ i : Hit, i ∈ all_hits (pages (samples_search_results (afapi world) body)) →
     source_tag i = None ∨ source_tag i = Some []) →
  ∃ (st' : Connector) (ar : ActionResult),
    _samples_search_tag body r st = (Returned APP_SUCCESS, st') ∧
    trace st' = trace st ++ [EvSearch body] ∧
    heap st' !! r = Some ar ∧
    ar_data ar = ar_data ar0 ∧
    ar_status ar = ar_status ar0 ∧
    ar_message ar = ar_message ar0 ∧
    ar_summary ar !! "total_tags_matched" = Some (Z.of_nat (length (ar_data ar0))).
Proof.
  intros Hiter Hr Hfail Hnone.
  assert (set_iter world
            (collect_tags (pages (samples_search_results (afapi world) body))) = [])
    as Hempty.
  { apply Permutation_nil_r. rewrite (Hiter _).
    assert (collect_tags (pages (samples_search_results (afapi world) body)) = ∅) as ->.
    { apply set_eq. intros t. rewrite collect_tags_elem_hits. split; [|set_solver].
      intros (i & tags & Hi & Hs & Ht). destruct (Hnone i Hi) as [?|?]; [congruence|].
      assert (tags = []) as -> by congruence. by inversion Ht. }
    by rewrite elements_empty. }
  pose proof (samples_search_tag_run body r st ar0 Hr Hfail) as Hrun.
  cbv zeta in Hrun. rewrite Hempty in Hrun. simpl in Hrun.
  eexists _, (summarise ar0). split; [exact Hrun|]. simpl.
  split_and!; try done.
  - apply list_lookup_insert_eq. by eapply lookup_lt_Some.
  - rewrite lookup_union_l'; [|by rewrite lookup_singleton_eq].
    by rewrite lookup_singleton_eq.
Qed.

(** *** [_test_connectivity] *)

Lemma test_connectivity_shape (st : Connector) :
  ∃ (status_code : bool) (msg : string) (ar : ActionResult) (evs : list event),
    (_test_connectivity st).2 = test_state st status_code msg ar evs ∧
    Forall (λ ev, is_search ev = false ∧ is_tag_lookup ev = false) evs ∧
    (length (filter (λ ev, is_export ev) evs) ≤ 1)%nat.
Proof.
  rewrite test_connectivity_spec. unfold test_spec.
  repeat case_match; simpl; eexists _, _, _, _; (split; [done|]);
    (split; [by repeat constructor|]); simpl; lia.
Qed.


(** Whatever it meets, the connectivity test registers no [ActionResult]
    with the connector and leaves the configuration alone; it allocates one
    object of its own, only adds events, never searches, never looks up a
    tag, and calls export at most once. *)
Theorem test_connectivity_frame (st : Connector) :
  ∃ (ar : ActionResult) (evs : list event),
    action_results (_test_connectivity st).2 = action_results st ∧
    config (_test_connectivity st).2 = config st ∧
    action_identifier (_test_connectivity st).2 = action_identifier st ∧
    heap (_test_connectivity st).2 = heap st ++ [ar] ∧
    trace (_test_connectivity st).2 = trace st ++ evs ∧
    Forall (λ ev, is_search ev = false ∧ is_tag_lookup ev = false) evs ∧
    (length (filter (λ ev, is_export ev) evs) ≤ 1)%nat.
Proof.
  destruct (test_connectivity_shape st) as (s & m & ar & evs & -> & Hevs & Hexp).
  by exists ar, evs.
Qed.

(** When the client cannot be constructed, the test fails without
    calling the service: it sets the connector's status to error with
    "Connectivity test failed" and saves that as progress; the
    constructor's own error text stays on the local [ActionResult] and is
    not reported. *)
Theorem test_connectivity_init_failure (st : Connector) (api_key e : string) :
  config st !! AF_JSON_API_KEY = Some api_key →
  PanAFapi (afapi world) api_key = Some e →
  ∃ (st' : Connector) (ar : ActionResult),
    _test_connectivity st = (Returned APP_ERROR, st') ∧
    status st' = APP_ERROR ∧
    message st' = "Connectivity test failed" ∧
    heap st' = heap st ++ [ar] ∧
    ar_message ar = e ∧
    trace st' = trace st ++ [EvProgress "Starting connectivity test";
                             EvPanAFapi api_key;
                             EvStatus APP_ERROR "Connectivity test failed";
                             EvProgress "Connectivity test failed"].
Proof.
  intros Hkey Hnew. rewrite test_connectivity_spec. unfold test_spec.
  rewrite Hkey, Hnew. by eexists _, _.
Qed.

(** A test that passes reports the quota: when the export call returns a
    response that passes the validation and whose reply carries
    [bucket_info] with the two counters, the progress message reads
    remaining/total "daily points remaining", in decimal when the counters
    are integers, and the connector's status is set to success with
    "Connectivity test passed". *)
Theorem test_connectivity_reports_quota (st : Connector) (api_key : string)
    (r : Response json) (remaining total : json) :
  init_succeeds st api_key →
  export (afapi world) = Returned r →
  raise_for_status r = None →
  quota_of (resp_json r) = Returned (remaining, total) →
  ∃ (st' : Connector) (msg : string),
    _test_connectivity st = (Returned APP_SUCCESS, st') ∧
    status st' = APP_SUCCESS ∧
    message st' = "Connectivity test passed" ∧
    trace st' =
      trace st ++ [EvProgress "Starting connectivity test"; EvPanAFapi api_key;
                   EvProgress "Making a request to PAN AutoFocus"; EvExport;
                   EvProgress msg;
                   EvStatus APP_SUCCESS "Connectivity test passed";
                   EvProgress "Connectivity test passed"] ∧
    msg = str_of world remaining +:+ "/" +:+ str_of world total
          +:+ " daily points remaining" ∧
    ∀ a b : Z,
      remaining = JInt a → total = JInt b →
      msg = pretty a +:+ "/" +:+ pretty b +:+ " daily points remaining".
Proof.
  intros [Hkey Hnew] Hexp Hval Hquota. rewrite test_connectivity_spec.
  unfold test_spec. rewrite Hkey, Hnew, Hexp, Hval, Hquota.
  eexists _, _. split; [done|]. simpl. split_and!; try done.
  intros a b -> ->. unfold points_message. by rewrite !str_of_int.
Qed.

(** Without a configured API key the test raises [KeyError] right after
    its first progress message: the connector's status and message are not
    set, no client is constructed and the service is not called. *)
Theorem test_connectivity_missing_key (st : Connector) :
  config st !! AF_JSON_API_KEY = None →
  ∃ st' : Connector,
    _test_connectivity st = (Raised (KeyError AF_JSON_API_KEY), st') ∧
    status st' = status st ∧
    message st' = message st ∧
    trace st' = trace st ++ [EvProgress "Starting connectivity test"].
Proof.
  intros Hkey. rewrite test_connectivity_spec. unfold test_spec. rewrite Hkey.
  by eexists.
Qed.

(** The test does not survive an export call that raises, nor a reply
    that passes the validation without [bucket_info] and its two counters:
    it raises, after the export call, with the connector's status and
    message as they were and no further progress message. *)
Theorem test_connectivity_raises (st : Connector) (api_key : string) (e : exception) :
  init_succeeds st api_key →
  export (afapi world) = Raised e
  ∨ (∃ r : Response json,
       export (afapi world) = Returned r ∧
       raise_for_status r = None ∧
       quota_of (resp_json r) = Raised e) →
  ∃ st' : Connector,
    _test_connectivity st = (Raised e, st') ∧
    status st' = status st ∧
    message st' = message st ∧
    trace st' = trace st ++ [EvProgress "Starting connectivity test"; EvPanAFapi api_key;
                             EvProgress "Making a request to PAN AutoFocus"; EvExport].
Proof.
  intros [Hkey Hnew] Hexp. rewrite test_connectivity_spec. unfold test_spec.
  rewrite Hkey, Hnew.
  destruct Hexp as [->|(r & -> & -> & ->)]; by eexists.
Qed.

(** *** [_hunt_action] *)

Lemma lower_all_samples : str_lower world "All Samples" = "all samples".
Proof. by rewrite str_lower_ascii. Qed.

(** A hunt without a scope parameter searches all samples: the search is
    issued with scope "global". *)
Theorem hunt_default_scope (field value_type : string) (param : gmap string string)
    (st : Connector) (api_key value : string) :
  init_succeeds st api_key →
  param !! AF_JSON_SCOPE = None →
  param !! value_type = Some value →
  ∃ rest : list event,
    trace (_hunt_action field value_type param st).2 =
      trace st ++ [EvPanAFapi api_key; EvProgress "Querying AutoFocus";
                   EvSearch (_construct_body value field 0 4000 "global")] ++ rest.
Proof.
  intros [Hkey Hnew] Hscope Hvalue. rewrite hunt_action_spec. unfold hunt_spec.
  rewrite Hkey, Hnew. unfold scope_of. rewrite Hscope. simpl.
  rewrite lower_all_samples.
  replace (SCOPE_MAP !! "all samples") with (Some "global") by done.
  rewrite Hvalue. simpl. unfold hunt_body.
  repeat case_match; simpl; by eexists.
Qed.

(** The three documented scope names are accepted in any letter case and
    mapped: "all samples" to global, "my samples" to private, "public
    samples" to public; the search is issued with the mapped scope. *)
Theorem hunt_mapped_scope (field value_type : string) (param : gmap string string)
    (st : Connector) (api_key value s sc : string) :
  init_succeeds st api_key →
  param !! AF_JSON_SCOPE = Some s →
  (str_lower world s, sc) ∈ [("all samples", "global"); ("my samples", "private");
                             ("public samples", "public")] →
  param !! value_type = Some value →
  ∃ rest : list event,
    trace (_hunt_action field value_type param st).2 =
      trace st ++ [EvPanAFapi api_key; EvProgress "Querying AutoFocus";
                   EvSearch (_construct_body value field 0 4000 sc)] ++ rest.
Proof.
  intros [Hkey Hnew] Hscope Hmap Hvalue. rewrite hunt_action_spec. unfold hunt_spec.
  rewrite Hkey, Hnew. unfold scope_of. rewrite Hscope. simpl.
  assert (SCOPE_MAP !! str_lower world s = Some sc) as ->.
  { apply SCOPE_MAP_Some.
    repeat (apply elem_of_cons in Hmap as [[= -> ->]|Hmap]; [naive_solver|]).
    by inversion Hmap. }
  rewrite Hvalue. simpl. unfold hunt_body.
  repeat case_match; simpl; by eexists.
Qed.

(** The scope is checked before the value parameter is read: a hunt
    without its value parameter fails with the invalid-scope error when the
    scope is not accepted, and raises [KeyError] for the parameter when it
    is, with the [ActionResult] registered but untouched and no call to the
    service. *)
Theorem hunt_scope_checked_before_value (field value_type : string)
    (param : gmap string string) (st : Connector) (api_key : string) :
  init_succeeds st api_key →
  param !! value_type = None →
  (SCOPE_MAP !! scope_of param = None →
     (_hunt_action field value_type param st).1 = Returned APP_ERROR) ∧
  (∀ sc : string, SCOPE_MAP !! scope_of param = Some sc →
     _hunt_action field value_type param st =
       (Raised (KeyError value_type),
        hunt_state st (ActionResult_init param) [EvPanAFapi api_key])).
Proof.
  intros Hinit Hvalue. split.
  - intros Hscope. by rewrite (hunt_invalid_scope_run _ _ _ _ _ Hinit Hscope).
  - intros sc Hscope. by eapply hunt_no_value_run.
Qed.

Lemma filter_search_tags (tags : list string) :
  filter (λ ev, is_search ev) (EvTag <$> tags) = [].
Proof.
  induction tags as [|t tags IH]; [done|].
  rewrite fmap_cons, filter_cons_False; [done|]. by intros [].
Qed.

(** Whatever it meets, a hunt registers exactly one new [ActionResult]
    with the connector, carrying the hunt's parameters; it leaves the
    connector's configuration, status and message and the objects already
    on the heap as they were, never calls export and searches at most
    once. *)
Theorem hunt_frame (field value_type : string) (param : gmap string string)
    (st : Connector) :
  ∃ (ar : ActionResult) (evs : list event),
    (_hunt_action field value_type param st).2 = hunt_state st ar evs ∧
    ar_param ar = param ∧
    Forall (λ ev, is_export ev = false) evs ∧
    (length (filter (λ ev, is_search ev) evs) ≤ 1)%nat.
Proof.
  rewrite hunt_action_spec. unfold hunt_spec.
  repeat case_match; simpl; eexists _, _; (split; [done|]).
  all: try (split; [done|]; split; [by repeat constructor|simpl; lia]).
  all: (split;
        [match goal with
         | H : enrich_spec ?tags = (_, ?f, _) |- _ =>
             pose proof (enrich_spec_frame tags (ActionResult_init param)) as (Hp & _);
             by rewrite H in Hp
         end|]).
  all: split;
    [repeat (constructor; [done|]); by apply Forall_fmap, Forall_true
    |rewrite !filter_cons_False by (by intros []);
     rewrite filter_cons_True by done;
     rewrite filter_search_tags; simpl; lia].
Qed.

(** The status a hunt returns is the status of its [ActionResult]; a
    hunt that returns the error status leaves no data and no summary.  A
    hunt that raises leaves an [ActionResult] without the success status and
    without a summary, and as it was created unless a tag was looked up
    before. *)
Theorem hunt_return_matches_result (field value_type : string)
    (param : gmap string string) (st : Connector) :
  ∃ (ar : ActionResult) (evs : list event),
    (_hunt_action field value_type param st).2 = hunt_state st ar evs ∧
    match (_hunt_action field value_type param st).1 with
    | Returned ret_val =>
        ar_status ar = ret_val ∧
        (ret_val = APP_ERROR → ar_data ar = [] ∧ ar_summary ar = ∅)
    | Raised _ =>
        ar_status ar = APP_ERROR ∧
        ar_summary ar = ∅ ∧
        (Forall (λ ev, is_tag_lookup ev = false) evs → ar = ActionResult_init param)
    end.
Proof.
  rewrite hunt_action_spec. unfold hunt_spec.
  repeat case_match; simplify_eq/=; eexists _, _; (split; [done|]); try done.
  match goal with
  | H : enrich_spec ?tags = (_, ?f, ?v) |- _ =>
      pose proof (enrich_spec_frame tags (ActionResult_init param)) as (_ & Hs & _);
      pose proof (enrich_spec_status tags (ActionResult_init param) eq_refl) as Hst;
      pose proof (enrich_spec_visited tags) as (_ & _ & Hv);
      rewrite H in Hs, Hst, Hv; simpl in Hs, Hst, Hv
  end.
  split_and!; [done..|].
  intros Hno. exfalso.
  match goal with |- _ => eapply Hv; [done|] end.
  repeat (apply Forall_cons in Hno as [_ Hno]).
  match type of Hno with Forall _ (_ <$> ?v) => destruct v as [|t v'] end; [done|].
  by apply Forall_cons in Hno as [? _].
Qed.

(** Tag lookups happen only after the hunt's search, and never in a hunt
    that returns the error status. *)
Theorem hunt_lookups_follow_search (field value_type : string)
    (param : gmap string string) (st : Connector) :
  ∃ evs : list event,
    trace (_hunt_action field value_type param st).2 = trace st ++ evs ∧
    ∀ (pre post : list event) (t : string),
      evs = pre ++ EvTag t :: post →
      (_hunt_action field value_type param st).1 ≠ Returned APP_ERROR ∧
      ∃ body : json, EvSearch body ∈ pre.
Proof.
  rewrite hunt_action_spec. unfold hunt_spec.
  repeat case_match; simpl; eexists; (split; [done|]); intros pre post t Hevs.
  all: destruct pre as [|? [|? [|? pre]]]; simplify_eq/=.
  all: try by destruct pre.
  all: split; [done|]; eexists; do 2 right; left.
Qed.

(** The loop raises at the first lookup that does not settle, having
    visited the tags up to it and done to the [ActionResult] what the
    lookups before it do. *)
Lemma enrich_spec_raises (before after : list string) (t : string) (e : exception) :
  (∀ u : string, u ∈ before → lookup_settles u = true) →
  lookup_result t = Raised e →
  (enrich_spec (before ++ t :: after)).1.1 = Raised e ∧
  (enrich_spec (before ++ t :: after)).2 = before ++ [t] ∧
  ∀ ar : ActionResult,
    (enrich_spec (before ++ t :: after)).1.2 ar = (enrich_spec before).1.2 ar.
Proof.
  intros Hbefore Ht. induction before as [|b before IH]; simpl.
  - by rewrite Ht.
  - pose proof (Hbefore b ltac:(left)) as Hb. unfold lookup_settles in Hb.
    destruct (lookup_result b) as [f|e']; [|done].
    destruct IH as (IH1 & IH2 & IH3); [intros u Hu; apply Hbefore; by right|].
    destruct (enrich_spec (before ++ t :: after)) as [[o g] v].
    destruct (enrich_spec before) as [[o' g'] v']. simpl in *.
    split_and!; [done|by f_equal|]. intros ar. apply IH3.
Qed.

(** A hunt does not survive a lookup that raises, be it the call or the
    reading of a reply that passed the validation: when the tags before [t]
    settle and the lookup of [t] raises [e], the hunt raises [e].  Its
    [ActionResult] stays registered, with the records of the tags before
    [t], without the success status and without [total_tags_matched]; the
    tags after [t] are not looked up. *)
Theorem hunt_raises_at_first_unsettled (field value_type : string)
    (param : gmap string string) (st : Connector) (api_key scope value : string)
    (before after : list string) (t : string) (e : exception) :
  init_succeeds st api_key →
  SCOPE_MAP !! scope_of param = Some scope →
  param !! value_type = Some value →
  failure (samples_search_results (afapi world) (hunt_body field value scope)) = None →
  hunt_tags field value scope = before ++ t :: after →
  (∀ u : string, u ∈ before → lookup_settles u = true) →
  lookup_result t = Raised e →
  ∃ (st' : Connector) (ar : ActionResult),
    _hunt_action field value_type param st = (Raised e, st') ∧
    action_results st' = action_results st ++ [length (heap st)] ∧
    heap st' = heap st ++ [ar] ∧
    ar_data ar = omap tag_record before ∧
    ar_status ar = APP_ERROR ∧
    ar_summary ar = ∅ ∧
    trace st' = trace st ++ [EvPanAFapi api_key; EvProgress "Querying AutoFocus";
                             EvSearch (hunt_body field value scope)]
                         ++ (EvTag <$> before ++ [t]).
Proof.
  intros Hinit Hscope Hvalue Hfail Htags Hbefore Ht.
  pose proof (hunt_enrich_run field value_type param st api_key scope value
                Hinit Hscope Hvalue Hfail) as Hrun.
  cbv zeta in Hrun. rewrite Htags in Hrun.
  destruct (enrich_spec_raises before after t e Hbefore Ht) as (Hret & Hvis & Hob).
  rewrite Hret, Hvis, Hob in Hrun.
  destruct (enrich_spec_frame before (ActionResult_init param)) as (_ & Hs & Hd).
  destruct (enrich_spec_settles before Hbefore) as [_ Hvb]. rewrite Hvb in Hd.
  eexists _, _. split; [exact Hrun|]. simpl. split_and!; try done.
  all: first [by apply enrich_spec_status | by rewrite <- app_assoc].
Qed.

(** *** [_get_report] *)

Lemma get_report_action_spec (param : gmap string string) (st : Connector) :
  _get_report param st = get_report_spec param st.
Proof.
  unfold _get_report, get_report_spec, _init_api, _validate_api_call. run.
  destruct (config st !! AF_JSON_API_KEY) as [api_key|]; simpl.
  2:{ unfold hunt_state. by rewrite app_nil_r. }
  destruct (PanAFapi (afapi world) api_key) as [e|]; simpl.
  { by rewrite alter_snoc, lookup_total_snoc. }
  destruct (param !! AF_JSON_TAG) as [tagname|]; simpl; [|done].
  destruct (tag (afapi world) tagname) as [r|e]; simpl.
  2:{ unfold hunt_state. by rewrite <- !app_assoc. }
  destruct (raise_for_status r) as [e|]; simpl.
  - rewrite alter_snoc, lookup_total_snoc. simpl.
    unfold hunt_state. by rewrite <- !app_assoc.
  - rewrite !alter_snoc. simpl. unfold hunt_state. by rewrite <- !app_assoc.
Qed.

(** A report whose lookup returns a response that passes the validation:
    the success status with "Successfully retrieved report info", one data
    item that is the reply as it came, with every field the service sent,
    no summary, and one tag lookup, for the name given. *)
Theorem get_report_success (param : gmap string string) (st : Connector)
    (api_key tagname : string) (r : Response json) :
  init_succeeds st api_key →
  param !! AF_JSON_TAG = Some tagname →
  tag (afapi world) tagname = Returned r →
  raise_for_status r = None →
  ∃ (st' : Connector) (ar : ActionResult),
    _get_report param st = (Returned APP_SUCCESS, st') ∧
    action_results st' = action_results st ++ [length (heap st)] ∧
    heap st' = heap st ++ [ar] ∧
    ar_status ar = APP_SUCCESS ∧
    ar_message ar = "Successfully retrieved report info" ∧
    ar_data ar = [ReportData (resp_json r)] ∧
    ar_summary ar = ∅ ∧
    trace st' = trace st ++ [EvPanAFapi api_key; EvTag tagname].
Proof.
  intros [Hkey Hnew] Htag Hr Hok. rewrite get_report_action_spec.
  unfold get_report_spec.
  rewrite Hkey, Hnew, Htag. simpl. rewrite Hr, Hok. by eexists _, _.
Qed.

(** A report whose lookup returns a response that fails the validation:
    the error status with the lookup's error as message and no data. *)
Theorem get_report_lookup_failure (param : gmap string string) (st : Connector)
    (api_key tagname e : string) (r : Response json) :
  init_succeeds st api_key →
  param !! AF_JSON_TAG = Some tagname →
  tag (afapi world) tagname = Returned r →
  raise_for_status r = Some e →
  ∃ (st' : Connector) (ar : ActionResult),
    _get_report param st = (Returned APP_ERROR, st') ∧
    heap st' = heap st ++ [ar] ∧
    ar_status ar = APP_ERROR ∧
    ar_message ar = e ∧
    ar_data ar = [] ∧
    trace st' = trace st ++ [EvPanAFapi api_key; EvTag tagname].
Proof.
  intros [Hkey Hnew] Htag Hr Herr. rewrite get_report_action_spec.
  unfold get_report_spec.
  rewrite Hkey, Hnew, Htag. simpl. rewrite Hr, Herr. by eexists _, _.
Qed.

(** A report whose lookup raises: the report raises the same exception,
    and the [ActionResult] stays registered as it was created. *)
Theorem get_report_lookup_raises (param : gmap string string) (st : Connector)
    (api_key tagname : string) (e : exception) :
  init_succeeds st api_key →
  param !! AF_JSON_TAG = Some tagname →
  tag (afapi world) tagname = Raised e →
  _get_report param st =
    (Raised e,
     hunt_state st (ActionResult_init param) [EvPanAFapi api_key; EvTag tagname]).
Proof.
  intros [Hkey Hnew] Htag Hr. rewrite get_report_action_spec. unfold get_report_spec.
  by rewrite Hkey, Hnew, Htag, Hr.
Qed.

(** A report without its tag parameter raises [KeyError] once the client
    is constructed, before any lookup; the [ActionResult] stays registered
    as it was created. *)
Theorem get_report_missing_tag (param : gmap string string) (st : Connector)
    (api_key : string) :
  init_succeeds st api_key →
  param !! AF_JSON_TAG = None →
  _get_report param st =
    (Raised (KeyError AF_JSON_TAG),
     hunt_state st (ActionResult_init param) [EvPanAFapi api_key]).
Proof.
  intros [Hkey Hnew] Htag. rewrite get_report_action_spec. unfold get_report_spec.
  by rewrite Hkey, Hnew, Htag.
Qed.

(** Whatever it meets, a report registers exactly one new [ActionResult]
    carrying its parameters and leaves the rest of the connector as it was;
    it never searches, never calls export, looks up at most one tag, writes
    no summary, and holds a data item exactly when it returns success; the
    status it returns is the status of its [ActionResult]. *)
Theorem get_report_frame (param : gmap string string) (st : Connector) :
  ∃ (ar : ActionResult) (evs : list event),
    (_get_report param st).2 = hunt_state st ar evs ∧
    ar_param ar = param ∧
    ar_summary ar = ∅ ∧
    Forall (λ ev, is_search ev = false ∧ is_export ev = false) evs ∧
    (length (filter (λ ev, is_tag_lookup ev) evs) ≤ 1)%nat ∧
    match (_get_report param st).1 with
    | Returned ret_val =>
        ar_status ar = ret_val ∧
        length (ar_data ar) = (if ret_val then 1 else 0)
    | Raised _ => ar = ActionResult_init param
    end.
Proof.
  rewrite get_report_action_spec. unfold get_report_spec.
  repeat case_match; simplify_eq/=; eexists _, _; (split; [done|]);
    split_and!; try done; try (by repeat constructor); simpl; lia.
Qed.

(** *** [handle_action] *)

Lemma handle_action_cases (param : gmap string string) (st : Connector) :
  handle_action param st = _test_connectivity st
  ∨ (∃ field value_type : string,
       handle_action param st = _hunt_action field value_type param st)
  ∨ handle_action param st = _get_report param st
  ∨ handle_action param st = (Returned APP_SUCCESS, st).
Proof.
  unfold handle_action, get_action_identifier, mbind, M_bind. simpl.
  repeat case_bool_decide.
  - by left.
  - right; left. by eexists _, _.
  - right; left. by eexists _, _.
  - right; left. by eexists _, _.
  - right; left. by eexists _, _.
  - right; right; by left.
  - right; right; by right.
Qed.

(** Whatever the action, [handle_action] only adds: the objects already
    on the heap, the registered results and the events logged so far stay
    as a prefix; at most one object is allocated and at most one result is
    registered, and it is the new object; the configuration and the action
    identifier are not changed. *)
Theorem handle_action_frame (param : gmap string string) (st : Connector) :
  ∃ (objs : list ActionResult) (refs : list ref) (evs : list event),
    heap (handle_action param st).2 = heap st ++ objs ∧
    action_results (handle_action param st).2 = action_results st ++ refs ∧
    trace (handle_action param st).2 = trace st ++ evs ∧
    config (handle_action param st).2 = config st ∧
    action_identifier (handle_action param st).2 = action_identifier st ∧
    (length objs ≤ 1)%nat ∧
    (refs = [] ∨ refs = [length (heap st)] ∧ length objs = 1).
Proof.
  destruct (handle_action_cases param st)
    as [->|[(field & value_type & ->)|[->| ->]]].
  - destruct (test_connectivity_shape st) as (s & m & ar & evs & -> & _).
    exists [ar], [], evs. simpl. rewrite app_nil_r. split_and!; try done. by left.
  - rewrite hunt_action_spec. unfold hunt_spec.
    repeat case_match; simpl; eexists [_], [_], _; split_and!; try done; by right.
  - rewrite get_report_action_spec. unfold get_report_spec.
    repeat case_match; simpl; eexists [_], [_], _; split_and!; try done; by right.
  - exists [], [], []. simpl. rewrite !app_nil_r. split_and!; try done.
    + lia.
    + by left.
Qed.

(** Each hunt action searches its own field with its own parameter:
    hunt_file the field alias.hash with the hash parameter, hunt_ip
    alias.ip_address with the IP, hunt_domain alias.domain with the domain,
    hunt_url alias.url with the URL.  The search asks for that field to
    contain that value, from 0, 4000 results, in the resolved scope. *)
Theorem hunt_variant_searches_its_field (id field key : string)
    (param : gmap string string) (st : Connector) (api_key scope value : string) :
  (id, field, key) ∈ hunt_variants →
  action_identifier st = id →
  ACTION_ID_TEST_ASSET_CONNECTIVITY ≠ id →
  init_succeeds st api_key →
  SCOPE_MAP !! scope_of param = Some scope →
  param !! key = Some value →
  ∃ rest : list event,
    trace (handle_action param st).2 =
      trace st ++ [EvPanAFapi api_key; EvProgress "Querying AutoFocus";
                   EvSearch (_construct_body value field 0 4000 scope)] ++ rest.
Proof.
  intros Hvar Hid Htest [Hkey Hnew] Hscope Hvalue.
  assert (handle_action param st = _hunt_action field key param st) as ->.
  { unfold handle_action, get_action_identifier, mbind, M_bind. simpl.
    rewrite Hid. rewrite bool_decide_eq_false_2 by done.
    unfold hunt_variants in Hvar.
    repeat (apply elem_of_cons in Hvar as [[= -> -> ->]|Hvar]; [done|]).
    by inversion Hvar. }
  rewrite hunt_action_spec. unfold hunt_spec.
  rewrite Hkey, Hnew, Hscope, Hvalue. simpl. unfold hunt_body.
  repeat case_match; simpl; by eexists.
Qed.

End Connector.

(** ** Two runs against one service *)

Section TwoRuns.

Variables AF_JSON_API_KEY AF_JSON_SCOPE : string.
Variable AF_ERR_INVALID_SCOPE : list fmt_piece.

(** The enrichment loop depends on the world through the service only. *)
Lemma lookup_result_service (w1 w2 : World) (t : string) :
  afapi w1 = afapi w2 → lookup_result w1 t = lookup_result w2 t.
Proof. unfold lookup_result. by intros ->. Qed.

Lemma enrich_spec_service (w1 w2 : World) (tags : list string) :
  afapi w1 = afapi w2 → enrich_spec w1 tags = enrich_spec w2 tags.
Proof.
  intros Hapi. induction tags as [|t tags IH]; [done|]. simpl.
  by rewrite (lookup_result_service w1 w2 t Hapi), IH.
Qed.

(** C9 (amended).  Two hunts with the same parameters from the same
    connector state, against the same search results and tag details, in
    worlds that may iterate over the tag set in different orders: one
    returns exactly when the other does, and then both return the same
    status, their [ActionResult]s hold the same records up to order and the
    same summary, hence the same [total_tags_matched], status and message,
    and they issue the same calls up to order. *)
Theorem hunt_same_records_any_order (w1 w2 : World) (field value_type : string)
    (param : gmap string string) (st : Connector) :
  afapi w1 = afapi w2 →
  (∀ s : string, str_lower w1 s = str_lower w2 s) →
  set_iter_ok w1 →
  set_iter_ok w2 →
  ∃ (out1 out2 : outcome bool) (ar1 ar2 : ActionResult) (evs1 evs2 : list event),
    _hunt_action AF_JSON_API_KEY AF_JSON_SCOPE AF_ERR_INVALID_SCOPE w1
      field value_type param st = (out1, hunt_state st ar1 evs1) ∧
    _hunt_action AF_JSON_API_KEY AF_JSON_SCOPE AF_ERR_INVALID_SCOPE w2
      field value_type param st = (out2, hunt_state st ar2 evs2) ∧
    ((∃ b : bool, out1 = Returned b) ↔ (∃ b : bool, out2 = Returned b)) ∧
    ∀ b : bool,
      out1 = Returned b →
      out2 = Returned b ∧
      ar_data ar1 ≡ₚ ar_data ar2 ∧
      ar_summary ar1 = ar_summary ar2 ∧
      ar_summary ar1 !! "total_tags_matched" = ar_summary ar2 !! "total_tags_matched" ∧
      ar_status ar1 = ar_status ar2 ∧
      ar_message ar1 = ar_message ar2 ∧
      evs1 ≡ₚ evs2.
Proof.
  intros Hapi Hlow Hit1 Hit2.
  rewrite !hunt_action_spec. unfold hunt_spec, hunt_tags, scope_of.
  rewrite <- Hapi, <- Hlow.
  destruct (config st !! AF_JSON_API_KEY) as [api_key|];
    [|eexists _, _, _, _, _, _; split_and!; [done..|]; by intros b [=]].
  destruct (PanAFapi (afapi w1) api_key);
    [eexists _, _, _, _, _, _; split_and!; [done..|]; by intros b [= <-]|].
  destruct (SCOPE_MAP !! _) as [scope|];
    [|eexists _, _, _, _, _, _; split_and!; [done..|]; by intros b [= <-]].
  destruct (param !! value_type) as [value|];
    [|eexists _, _, _, _, _, _; split_and!; [done..|]; by intros b [=]].
  destruct (failure _);
    [eexists _, _, _, _, _, _; split_and!; [done..|]; by intros b [= <-]|].
  set (S := collect_tags _).
  rewrite <- (enrich_spec_service w1 w2) by done.
  assert (set_iter w1 S ≡ₚ set_iter w2 S) as Hperm by (by rewrite (Hit1 S), (Hit2 S)).
  destruct (enrich_spec w1 (set_iter w1 S)) as [[o1 f1] v1] eqn:H1.
  destruct (enrich_spec w1 (set_iter w2 S)) as [[o2 f2] v2] eqn:H2.
  destruct (decide (Forall (λ t, lookup_settles w1 t = true) (set_iter w1 S)))
    as [Hs1|Hn1].
  - assert (Forall (λ t, lookup_settles w1 t = true) (set_iter w2 S)) as Hs2
      by (by rewrite <- Hperm).
    rewrite Forall_forall in Hs1, Hs2.
    destruct (hunt_result_settled w1 _ param Hs1) as (Hr1 & Hv1 & Hres1).
    destruct (hunt_result_settled w1 _ param Hs2) as (Hr2 & Hv2 & Hres2).
    rewrite H1 in Hr1, Hv1, Hres1. rewrite H2 in Hr2, Hv2, Hres2.
    simpl in Hr1, Hv1, Hres1, Hr2, Hv2, Hres2. subst o1 o2 v1 v2.
    rewrite Hres1, Hres2.
    eexists _, _, _, _, _, _. split; [done|]. split; [done|]. split; [done|].
    intros b [= <-]. cbn [ar_data ar_summary ar_status ar_message].
    assert (omap (tag_record w1) (set_iter w1 S) ≡ₚ omap (tag_record w1) (set_iter w2 S))
      as Hdata by (by rewrite Hperm).
    pose proof (Permutation_length Hdata) as Hlen.
    split_and!; try done.
    + by rewrite Hlen.
    + by rewrite Hlen.
    + by rewrite Hperm.
  - assert (¬ Forall (λ t, lookup_settles w1 t = true) (set_iter w2 S)) as Hn2
      by (by rewrite <- Hperm).
    destruct o1 as [[]|e1].
    { exfalso. apply Hn1, Forall_forall.
      apply (enrich_spec_returns w1 _ ()). by rewrite H1. }
    destruct o2 as [[]|e2].
    { exfalso. apply Hn2, Forall_forall.
      apply (enrich_spec_returns w1 _ ()). by rewrite H2. }
    eexists _, _, _, _, _, _. split; [done|]. split; [done|]. split.
    + split; by intros [b ?].
    + by intros b [=].
Qed.

End TwoRuns.

(** ** The claims at the fixtures *)

Section Examples.

Import Fixtures.

Lemma in_order_ok (api : AFapi) : set_iter_ok (in_order api).
Proof. intros s. reflexivity. Defined.

Lemma in_reverse_ok (api : AFapi) : set_iter_ok (in_reverse api).
Proof. intros s. apply reverse_Permutation. Defined.

Lemma connector_init (api : AFapi) (action : string) :
  PanAFapi api "secret" = None →
  init_succeeds "api_key" (in_order api) (connector action) "secret".
Proof. intros H. split; [reflexivity|exact H]. Defined.

(** C1, at scope "Global" of a file hunt. *)
Lemma hunt_canonical_scope_rejected_witness :
  _hunt_action "api_key" "scope" invalid_scope (in_order service)
    "alias.hash" "hash" (hunt_file_param "Global") (connector "hunt_file")
  = (Returned APP_ERROR,
     hunt_state (connector "hunt_file")
       (hunt_failure (hunt_file_param "Global")
          (format invalid_scope
             (scope_of "scope" (in_order service) (hunt_file_param "Global"))))
       [EvPanAFapi "secret"]).
Proof.
  apply (hunt_canonical_scope_rejected "api_key" "scope" invalid_scope
           (in_order service) "alias.hash" "hash" (hunt_file_param "Global")
           (connector "hunt_file") "secret").
  - apply connector_init. reflexivity.
  - apply (bool_decide_unpack _). vm_compute. exact I.
Defined.

(** C2 as amended, with two tags of which bar fails the validation: one
    record, and a count of 1. *)
Lemma enrichment_skips_failed_lookups_witness :
  ∃ (st' : Connector) (ar : ActionResult),
    _samples_search_tag (in_order service_bar_missing)
      (hunt_body "alias.hash" "abc123" "global") 0
      (set_heap (λ _, [ActionResult_init ∅]) (connector "hunt_file"))
    = (Returned APP_SUCCESS, st') ∧
    heap st' !! 0 = Some ar ∧
    length (ar_data ar) = 1 ∧
    ar_summary ar !! "total_tags_matched" = Some 1%Z.
Proof.
  destruct (enrichment_skips_failed_lookups (in_order service_bar_missing)
              (hunt_body "alias.hash" "abc123" "global") 0
              (set_heap (λ _, [ActionResult_init ∅]) (connector "hunt_file"))
              (ActionResult_init ∅))
    as (st' & ar & Hrun & Hheap & _ & _ & _ & Hlen & Hsum).
  - apply in_order_ok.
  - reflexivity.
  - reflexivity.
  - reflexivity.
  - intros t _. unfold lookup_settles, lookup_result. simpl.
    destruct (bool_decide (t = "malware.bar")); reflexivity.
  - exists st', ar. split; [exact Hrun|]. split; [exact Hheap|].
    split; [exact Hlen|exact Hsum].
Defined.

(** C2 as stated fails on a lookup that is answered with a 2xx status
    and no tag detail: none of the two lookups fails the validation, the
    first gives a record, and the second raises out of the loop.  The call
    does not return, one record is in the result instead of two, and
    [total_tags_matched] is not written. *)
Lemma enrichment_aborts_counterexample :
  failure (samples_search_results (afapi (in_order service_bar_not_json))
             (hunt_body "alias.hash" "abc123" "global")) = None ∧
  set_iter (in_order service_bar_not_json)
    (collect_tags (pages (samples_search_results (afapi (in_order service_bar_not_json))
                            (hunt_body "alias.hash" "abc123" "global"))))
  = ["malware.foo"; "malware.bar"] ∧
  lookup_fails (in_order service_bar_not_json) "malware.foo" = false ∧
  lookup_fails (in_order service_bar_not_json) "malware.bar" = false ∧
  ∃ (st' : Connector) (ar : ActionResult),
    _samples_search_tag (in_order service_bar_not_json)
      (hunt_body "alias.hash" "abc123" "global") 0
      (set_heap (λ _, [ActionResult_init ∅]) (connector "hunt_file"))
    = (Raised TypeError, st') ∧
    heap st' !! 0 = Some ar ∧
    length (ar_data ar) = 1 ∧
    ar_summary ar !! "total_tags_matched" = None ∧
    trace st' = [EvSearch (hunt_body "alias.hash" "abc123" "global");
                 EvTag "malware.foo"; EvTag "malware.bar"].
Proof.
  split; [reflexivity|]. split; [by vm_compute|].
  split; [by vm_compute|]. split; [by vm_compute|].
  eexists _, _. split; [vm_compute; reflexivity|].
  split; [reflexivity|]. by vm_compute.
Qed.

(** C3, on the page of the fixtures: foo and bar, each once. *)
Lemma aggregated_tags_are_union_witness :
  NoDup (elements (collect_tags two_tags)) ∧
  NoDup (set_iter (in_order service) (collect_tags two_tags)) ∧
  (∀ t : string,
     t ∈ collect_tags two_tags ↔
     ∃ hits i tags,
       hits ∈ two_tags ∧ i ∈ hits ∧ source_tag i = Some tags ∧ t ∈ tags) ∧
  (∀ (tag_set : gset string) (i : Hit),
     source_tag i = None → add_hit tag_set i = tag_set).
Proof.
  apply (aggregated_tags_are_union (in_order service) two_tags).
  apply in_order_ok.
Defined.

(** C4 as amended, at scope "bogus" of an IP hunt. *)
Lemma hunt_unknown_scope_fails_witness :
  ∃ (st' : Connector) (ar : ActionResult) (evs : list event),
    _hunt_action "api_key" "scope" invalid_scope (in_order service)
      "alias.ip_address" "ip" (hunt_ip_param "bogus") (connector "hunt_ip")
    = (Returned APP_ERROR, st') ∧
    heap st' = [ar] ∧
    ar_message ar
    = format invalid_scope (scope_of "scope" (in_order service) (hunt_ip_param "bogus")) ∧
    contains (ar_message ar)
      (scope_of "scope" (in_order service) (hunt_ip_param "bogus")) ∧
    trace st' = evs ∧
    Forall (λ ev, is_remote_call ev = false) evs.
Proof.
  destruct (hunt_unknown_scope_fails "api_key" "scope" invalid_scope
              (in_order service) "alias.ip_address" "ip" (hunt_ip_param "bogus")
              (connector "hunt_ip") "secret")
    as (st' & ar & evs & Hrun & _ & Hheap & _ & Hmsg & Hnames & _ & Htrace & Hcalls).
  - apply connector_init. reflexivity.
  - apply (bool_decide_unpack _). vm_compute. exact I.
  - exists st', ar, evs. split; [exact Hrun|]. split; [exact Hheap|].
    split; [exact Hmsg|]. split; [|split; [exact Htrace|exact Hcalls]].
    apply Hnames. apply (bool_decide_unpack _). vm_compute. exact I.
Defined.

(** C4 as stated fails when the client cannot be constructed: the scope
    "bogus" is not in the vocabulary, the hunt fails, and the message is
    the constructor's, which does not name the scope. *)
Lemma hunt_unknown_scope_counterexample :
  (scope_of "scope" (in_order service_no_client) (hunt_ip_param "bogus")
   ∉ scope_vocabulary) ∧
  ∃ (st' : Connector) (ar : ActionResult),
    _hunt_action "api_key" "scope" invalid_scope (in_order service_no_client)
      "alias.ip_address" "ip" (hunt_ip_param "bogus") (connector "hunt_ip")
    = (Returned APP_ERROR, st') ∧
    heap st' = [ar] ∧
    ar_message ar = "api_key required" ∧
    ¬ contains (ar_message ar)
        (scope_of "scope" (in_order service_no_client) (hunt_ip_param "bogus")).
Proof.
  split; [apply (bool_decide_unpack _); vm_compute; exact I|].
  eexists _, _. split; [vm_compute; reflexivity|].
  split; [reflexivity|]. split; [reflexivity|].
  intros H%contains_b_complete. vm_compute in H. discriminate H.
Qed.

(** C5, with a search that fails after a page with two tags. *)
Lemma hunt_search_error_discards_tags_witness :
  ∃ (st' : Connector) (ar : ActionResult),
    _hunt_action "api_key" "scope" invalid_scope (in_order service_search_down)
      "alias.hash" "hash" (hunt_file_param "All Samples") (connector "hunt_file")
    = (Returned APP_ERROR, st') ∧
    heap st' = [ar] ∧
    ar_message ar = "503 Server Error" ∧
    ar_data ar = [].
Proof.
  destruct (hunt_search_error_discards_tags "api_key" "scope" invalid_scope
              (in_order service_search_down) "alias.hash" "hash"
              (hunt_file_param "All Samples") (connector "hunt_file")
              "secret" "global" "abc123" "503 Server Error")
    as (st' & ar & Hrun & _ & Hheap & _ & Hmsg & Hdata & _).
  - apply connector_init. reflexivity.
  - vm_compute. reflexivity.
  - vm_compute. reflexivity.
  - reflexivity.
  - exists st', ar. split; [exact Hrun|]. split; [exact Hheap|].
    split; [exact Hmsg|exact Hdata].
Defined.

(** C6, at the file hunt for abc123 in all samples. *)
Lemma construct_body_exact_witness :
  _construct_body "abc123" "alias.hash" 0 4000 "global" =
    JDict {[ "scope" := JStr "global";
             "from" := JInt 0;
             "size" := JInt 4000;
             "sort" := JDict {[ "create_date" := JDict {[ "order" := JStr "desc" ]} ]};
             "query" :=
               JDict {[ "operator" := JStr "all";
                        "children" :=
                          JList [JDict {[ "field" := JStr "alias.hash";
                                          "operator" := JStr "contains";
                                          "value" := JStr "abc123" ]}] ]} ]}.
Proof.
  apply (construct_body_exact "api_key" "scope" invalid_scope (in_order service)
           "abc123" "alias.hash" "global").
Defined.

(** C7, at an action identifier the dispatcher does not know. *)
Lemma unknown_action_is_noop_witness :
  handle_action "api_key" "scope" "hash" "ip" "domain" "url" "tag" invalid_scope
    "test_asset_connectivity" (in_order service) ∅ (connector "on_poll")
  = (Returned APP_SUCCESS, connector "on_poll").
Proof.
  apply (unknown_action_is_noop "api_key" "scope" "hash" "ip" "domain" "url" "tag"
           invalid_scope "test_asset_connectivity" (in_order service) ∅
           (connector "on_poll")).
  apply (bool_decide_unpack _). vm_compute. exact I.
Defined.


(** C8 as amended, with the export call denied. *)
Lemma connectivity_test_success_iff_witness :
  (_test_connectivity "api_key" (in_order service_export_denied)
     (connector "test_asset_connectivity")).1 = Returned APP_ERROR ∧
  status (_test_connectivity "api_key" (in_order service_export_denied)
            (connector "test_asset_connectivity")).2 = APP_ERROR ∧
  trace (_test_connectivity "api_key" (in_order service_export_denied)
           (connector "test_asset_connectivity")).2 =
    trace (connector "test_asset_connectivity")
    ++ [EvProgress "Starting connectivity test"; EvPanAFapi "secret";
        EvProgress "Making a request to PAN AutoFocus"; EvExport;
        EvProgress "401 Client Error: Unauthorized";
        EvProgress "Test Connectivity failed";
        EvStatus APP_ERROR ""].
Proof.
  destruct (connectivity_test_success_iff "api_key" (in_order service_export_denied)
              (connector "test_asset_connectivity")) as (_ & _ & Hfail).
  apply (Hfail "secret" "401 Client Error: Unauthorized"
           (http_error "401 Client Error: Unauthorized" JNull)).
  - apply connector_init. reflexivity.
  - reflexivity.
  - reflexivity.
Defined.

(** C8 as stated fails on an export reply with a 2xx status and no
    [bucket_info]: initialisation goes through and the validation passes,
    yet the test raises [KeyError] instead of returning success, and the
    connector's status is not set. *)
Lemma connectivity_test_counterexample :
  init_succeeds "api_key" (in_order service_export_empty)
    (connector "test_asset_connectivity") "secret" ∧
  (∃ r : Response json,
     export (afapi (in_order service_export_empty)) = Returned r ∧
     raise_for_status r = None) ∧
  ∃ st' : Connector,
    _test_connectivity "api_key" (in_order service_export_empty)
      (connector "test_asset_connectivity")
    = (Raised (KeyError "bucket_info"), st') ∧
    status st' = status (connector "test_asset_connectivity") ∧
    message st' = message (connector "test_asset_connectivity") ∧
    trace st' = [EvProgress "Starting connectivity test"; EvPanAFapi "secret";
                 EvProgress "Making a request to PAN AutoFocus"; EvExport].
Proof.
  split; [by split|]. split; [by eexists|].
  eexists. split; [vm_compute; reflexivity|]. by vm_compute.
Qed.

(** C9 as amended, iterating in order and in reverse, with bar failing
    the validation. *)
Lemma hunt_same_records_any_order_witness :
  ∃ (out1 out2 : outcome bool) (ar1 ar2 : ActionResult) (evs1 evs2 : list event),
    _hunt_action "api_key" "scope" invalid_scope (in_order service_bar_missing)
      "alias.hash" "hash" (hunt_file_param "All Samples") (connector "hunt_file")
    = (out1, hunt_state (connector "hunt_file") ar1 evs1) ∧
    _hunt_action "api_key" "scope" invalid_scope (in_reverse service_bar_missing)
      "alias.hash" "hash" (hunt_file_param "All Samples") (connector "hunt_file")
    = (out2, hunt_state (connector "hunt_file") ar2 evs2) ∧
    ((∃ b : bool, out1 = Returned b) ↔ (∃ b : bool, out2 = Returned b)) ∧
    ∀ b : bool,
      out1 = Returned b →
      out2 = Returned b ∧
      ar_data ar1 ≡ₚ ar_data ar2 ∧
      ar_summary ar1 = ar_summary ar2 ∧
      ar_summary ar1 !! "total_tags_matched" = ar_summary ar2 !! "total_tags_matched" ∧
      ar_status ar1 = ar_status ar2 ∧
      ar_message ar1 = ar_message ar2 ∧
      evs1 ≡ₚ evs2.
Proof.
  apply (hunt_same_records_any_order "api_key" "scope" invalid_scope
           (in_order service_bar_missing) (in_reverse service_bar_missing)
           "alias.hash" "hash" (hunt_file_param "All Samples")
           (connector "hunt_file")).
  - reflexivity.
  - reflexivity.
  - apply in_order_ok.
  - apply in_reverse_ok.
Defined.

(** C9 as stated fails when the lookup of bar is answered with a 2xx
    status and no tag detail: both runs raise at bar, the one that visits
    foo first with the record of foo in its result, the other with none;
    neither writes [total_tags_matched]. *)
Lemma hunt_records_depend_on_order_counterexample :
  afapi (in_order service_bar_not_json) = afapi (in_reverse service_bar_not_json) ∧
  set_iter_ok (in_order service_bar_not_json) ∧
  set_iter_ok (in_reverse service_bar_not_json) ∧
  ∃ (ar1 ar2 : ActionResult) (evs1 evs2 : list event),
    _hunt_action "api_key" "scope" invalid_scope (in_order service_bar_not_json)
      "alias.hash" "hash" (hunt_file_param "All Samples") (connector "hunt_file")
    = (Raised TypeError, hunt_state (connector "hunt_file") ar1 evs1) ∧
    _hunt_action "api_key" "scope" invalid_scope (in_reverse service_bar_not_json)
      "alias.hash" "hash" (hunt_file_param "All Samples") (connector "hunt_file")
    = (Raised TypeError, hunt_state (connector "hunt_file") ar2 evs2) ∧
    ar_data ar1 = option_list (tag_record (in_order service_bar_not_json) "malware.foo") ∧
    length (ar_data ar1) = 1 ∧
    ar_data ar2 = [] ∧
    ¬ ar_data ar1 ≡ₚ ar_data ar2 ∧
    ar_summary ar1 !! "total_tags_matched" = None ∧
    ar_summary ar2 !! "total_tags_matched" = None.
Proof.
  split; [reflexivity|]. split; [apply in_order_ok|]. split; [apply in_reverse_ok|].
  eexists _, _, _, _. split; [vm_compute; reflexivity|].
  split; [vm_compute; reflexivity|].
  split; [by vm_compute|]. split; [reflexivity|]. split; [reflexivity|].
  split; [|by vm_compute].
  intros H%Permutation_length. discriminate H.
Qed.

(** C10 as amended, with every lookup failing the validation: success,
    no data, a count of 0. *)
Lemma hunt_succeeds_despite_failed_lookups_witness :
  ∃ (st' : Connector) (ar : ActionResult),
    _hunt_action "api_key" "scope" invalid_scope (in_order service_tags_down)
      "alias.hash" "hash" (hunt_file_param "All Samples") (connector "hunt_file")
    = (Returned APP_SUCCESS, st') ∧
    heap st' = [ar] ∧
    ar_status ar = APP_SUCCESS ∧
    ar_message ar = "" ∧
    ar_data ar = [] ∧
    ar_summary ar !! "total_tags_matched" = Some 0%Z.
Proof.
  destruct (hunt_succeeds_despite_failed_lookups "api_key" "scope" invalid_scope
              (in_order service_tags_down) "alias.hash" "hash"
              (hunt_file_param "All Samples") (connector "hunt_file")
              "secret" "global" "abc123")
    as (st' & ar & Hrun & _ & Hheap & Hstatus & Hmsg & Hall).
  - apply connector_init. reflexivity.
  - vm_compute. reflexivity.
  - vm_compute. reflexivity.
  - reflexivity.
  - intros t _. reflexivity.
  - exists st', ar. split; [exact Hrun|]. split; [exact Hheap|].
    split; [exact Hstatus|]. split; [exact Hmsg|].
    apply Hall. intros t _. reflexivity.
Defined.

(** C10 as stated fails when a lookup is answered with a 2xx status and
    no tag detail: initialisation, scope resolution and the search go
    through, and the hunt raises instead of returning success; its
    [ActionResult] stays registered with the error status it was created
    with and without [total_tags_matched]. *)
Lemma hunt_raises_counterexample :
  init_succeeds "api_key" (in_order service_bar_not_json) (connector "hunt_file")
    "secret" ∧
  SCOPE_MAP !! scope_of "scope" (in_order service_bar_not_json)
                 (hunt_file_param "All Samples") = Some "global" ∧
  hunt_file_param "All Samples" !! "hash" = Some "abc123" ∧
  failure (samples_search_results (afapi (in_order service_bar_not_json))
             (hunt_body "alias.hash" "abc123" "global")) = None ∧
  ∃ (st' : Connector) (ar : ActionResult),
    _hunt_action "api_key" "scope" invalid_scope (in_order service_bar_not_json)
      "alias.hash" "hash" (hunt_file_param "All Samples") (connector "hunt_file")
    = (Raised TypeError, st') ∧
    action_results st' = [0] ∧
    heap st' = [ar] ∧
    ar_status ar = APP_ERROR ∧
    ar_summary ar !! "total_tags_matched" = None.
Proof.
  split; [by split|]. split; [by vm_compute|]. split; [by vm_compute|].
  split; [reflexivity|].
  eexists _, _. split; [vm_compute; reflexivity|]. by vm_compute.
Qed.

(** *** The scenarios of the action descriptions, run *)

(** A file hunt for abc123 in all samples: two hits, tagged foo and
    foo, bar; both lookups pass; two records and a count of 2. *)
Example hunt_file_two_tags :
  ∃ (st' : Connector) (ar : ActionResult),
    handle_action "api_key" "scope" "hash" "ip" "domain" "url" "tag" invalid_scope
      "test_asset_connectivity" (in_order service)
      (hunt_file_param "all samples") (connector "hunt_file")
    = (Returned APP_SUCCESS, st') ∧
    action_results st' = [0] ∧
    heap st' = [ar] ∧
    ar_status ar = APP_SUCCESS ∧
    Some <$> ar_data ar ≡ₚ [tag_record (in_order service) "malware.foo";
                            tag_record (in_order service) "malware.bar"] ∧
    ar_summary ar !! "total_tags_matched" = Some 2%Z.
Proof.
  eexists _, _. split.
  { vm_compute. reflexivity. }
  split; [reflexivity|]. split; [reflexivity|]. split; [reflexivity|].
  split; [|by vm_compute].
  vm_compute. first [reflexivity | apply perm_swap].
Qed.

(** The same hunt with scope "global" is turned down. *)
Example hunt_file_global :
  ∃ (st' : Connector) (ar : ActionResult),
    handle_action "api_key" "scope" "hash" "ip" "domain" "url" "tag" invalid_scope
      "test_asset_connectivity" (in_order service)
      (hunt_file_param "global") (connector "hunt_file")
    = (Returned APP_ERROR, st') ∧
    heap st' = [ar] ∧
    ar_message ar = "Invalid scope: global" ∧
    trace st' = [EvPanAFapi "secret"].
Proof.
  eexists _, _. split.
  { vm_compute. reflexivity. }
  by vm_compute.
Qed.

(** A report on bar: one lookup, the payload as it came. *)
Example get_report_bar :
  ∃ (st' : Connector) (ar : ActionResult),
    handle_action "api_key" "scope" "hash" "ip" "domain" "url" "tag" invalid_scope
      "test_asset_connectivity" (in_order service)
      {[ "tag" := "malware.bar" ]} (connector "get_report")
    = (Returned APP_SUCCESS, st') ∧
    heap st' = [ar] ∧
    ar_status ar = APP_SUCCESS ∧
    ar_data ar = [ReportData (detail "malware.bar")] ∧
    trace st' = [EvPanAFapi "secret"; EvTag "malware.bar"].
Proof.
  eexists _, _. split.
  { vm_compute. reflexivity. }
  by vm_compute.
Qed.

(** The connectivity test against the service of the fixtures. *)
Example test_connectivity_quota :
  ∃ st' : Connector,
    handle_action "api_key" "scope" "hash" "ip" "domain" "url" "tag" invalid_scope
      "test_asset_connectivity" (in_order service) ∅
      (connector "test_asset_connectivity")
    = (Returned APP_SUCCESS, st') ∧
    status st' = APP_SUCCESS ∧
    trace st' = [EvProgress "Starting connectivity test"; EvPanAFapi "secret";
                 EvProgress "Making a request to PAN AutoFocus"; EvExport;
                 EvProgress "950/1000 daily points remaining";
                 EvStatus APP_SUCCESS "Connectivity test passed";
                 EvProgress "Connectivity test passed"].
Proof.
  eexists. split.
  { vm_compute. reflexivity. }
  by vm_compute.
Qed.


(** A file hunt in which the client cannot reach the service for bar:
    the exception leaves the handler after the record of foo is added. *)
Example hunt_file_unreachable :
  ∃ (st' : Connector) (ar : ActionResult),
    handle_action "api_key" "scope" "hash" "ip" "domain" "url" "tag" invalid_scope
      "test_asset_connectivity" (in_order service_bar_unreachable)
      (hunt_file_param "all samples") (connector "hunt_file")
    = (Raised (ClientError "Connection refused"), st') ∧
    heap st' = [ar] ∧
    length (ar_data ar) = 1 ∧
    ar_summary ar = ∅.
Proof.
  eexists _, _. split.
  { vm_compute. reflexivity. }
  by vm_compute.
Qed.

End Examples.

(** ** The further properties at the fixtures *)

Section MoreExamples.

Import Fixtures.

Lemma validate_api_call_keeps_data_witness :
  ∃ st' : Connector,
    _validate_api_call (http_error "404 Client Error: Not Found" (detail "malware.bar"))
      0 connector_with_result
    = (Returned APP_ERROR, st') ∧
    heap st' !! 0 =
      Some {| ar_param := ∅; ar_status := APP_ERROR;
              ar_message := "404 Client Error: Not Found";
              ar_data := [ReportData (detail "malware.old")];
              ar_summary := {[ "pages_read" := 3%Z ]} |} ∧
    trace st' = [].
Proof.
  destruct (validate_api_call_keeps_data
              (http_error "404 Client Error: Not Found" (detail "malware.bar"))
              0 connector_with_result earlier_result)
    as (st' & Hrun & _ & Hheap & _ & Htrace & _).
  - reflexivity.
  - exists st'. split; [exact Hrun|]. split; [|exact Htrace].
    apply (Hheap "404 Client Error: Not Found"). reflexivity.
Defined.

Lemma construct_body_inj_witness :
  "abc123" = "abc123" ∧ "alias.hash" = "alias.hash" ∧ 0%Z = 0%Z ∧ 4000%Z = 4000%Z
  ∧ "global" = "global".
Proof.
  apply (construct_body_inj "abc123" "alias.hash" "global"
           "abc123" "alias.hash" "global" 0 4000 0 4000).
  reflexivity.
Defined.

Lemma collect_tags_ignores_paging_witness :
  collect_tags two_tags
  = collect_tags [[ {| source_tag := Some ["malware.foo"; "malware.bar"] |} ];
                  [ {| source_tag := Some ["malware.foo"] |};
                    {| source_tag := None |} ]].
Proof.
  apply (collect_tags_ignores_paging two_tags
           [[ {| source_tag := Some ["malware.foo"; "malware.bar"] |} ];
            [ {| source_tag := Some ["malware.foo"] |}; {| source_tag := None |} ]]).
  vm_compute. apply perm_swap.
Defined.

Lemma samples_search_tag_leaves_last_error_witness :
  ∃ (st' : Connector) (ar : ActionResult),
    _samples_search_tag (in_order service_bar_missing)
      (hunt_body "alias.hash" "abc123" "global") 0 connector_with_result
    = (Returned APP_SUCCESS, st') ∧
    heap st' !! 0 = Some ar ∧
    ar_status ar = APP_ERROR ∧
    ar_message ar = "404 Client Error: Not Found".
Proof.
  apply (samples_search_tag_leaves_last_error (in_order service_bar_missing)
           (hunt_body "alias.hash" "abc123" "global") 0 connector_with_result
           earlier_result ["malware.foo"] [] "malware.bar"
           "404 Client Error: Not Found"
           (http_error "404 Client Error: Not Found" JNull)).
  - reflexivity.
  - reflexivity.
  - vm_compute. reflexivity.
  - intros u Hu. apply elem_of_cons in Hu as [->|Hu]; [reflexivity|inversion Hu].
  - reflexivity.
  - reflexivity.
  - intros u Hu. inversion Hu.
Defined.

Lemma samples_search_tag_appends_witness :
  ∃ (st' : Connector) (ar : ActionResult),
    _samples_search_tag (in_order service)
      (hunt_body "alias.hash" "abc123" "global") 0 connector_with_result
    = (Returned APP_SUCCESS, st') ∧
    heap st' !! 0 = Some ar ∧
    ar_data ar = ReportData (detail "malware.old")
                 :: omap (tag_record (in_order service)) ["malware.foo"; "malware.bar"] ∧
    ar_summary ar !! "total_tags_matched" = Some 3%Z ∧
    ar_summary ar !! "pages_read" = Some 3%Z.
Proof.
  destruct (samples_search_tag_appends (in_order service)
              (hunt_body "alias.hash" "abc123" "global") 0 connector_with_result
              earlier_result)
    as (st' & ar & Hrun & Hheap & Hdata & _ & Hsum & Hkeys & _).
  - reflexivity.
  - reflexivity.
  - intros u _. reflexivity.
  - exists st', ar. split; [exact Hrun|]. split; [exact Hheap|].
    split; [exact Hdata|]. split.
    + rewrite Hsum, Hdata. reflexivity.
    + rewrite (Hkeys "pages_read"); [reflexivity|discriminate].
Defined.

Lemma samples_search_tag_no_tags_witness :
  ∃ (st' : Connector) (ar : ActionResult),
    _samples_search_tag (in_order service_untagged)
      (hunt_body "alias.hash" "abc123" "global") 0 connector_with_result
    = (Returned APP_SUCCESS, st') ∧
    trace st' = [EvSearch (hunt_body "alias.hash" "abc123" "global")] ∧
    heap st' !! 0 = Some ar ∧
    ar_data ar = [ReportData (detail "malware.old")] ∧
    ar_summary ar !! "total_tags_matched" = Some 1%Z.
Proof.
  destruct (samples_search_tag_no_tags (in_order service_untagged)
              (hunt_body "alias.hash" "abc123" "global") 0 connector_with_result
              earlier_result)
    as (st' & ar & Hrun & Htrace & Hheap & Hdata & _ & _ & Hsum).
  - apply in_order_ok.
  - reflexivity.
  - reflexivity.
  - intros i Hi. vm_compute in Hi.
    apply elem_of_cons in Hi as [->|Hi]; [by left|].
    apply elem_of_cons in Hi as [->|Hi]; [by right|]. inversion Hi.
  - exists st', ar. split; [exact Hrun|]. split; [exact Htrace|].
    split; [exact Hheap|]. split; [exact Hdata|exact Hsum].
Defined.

Lemma test_connectivity_init_failure_witness :
  ∃ (st' : Connector) (ar : ActionResult),
    _test_connectivity "api_key" (in_order service_no_client)
      (connector "test_asset_connectivity")
    = (Returned APP_ERROR, st') ∧
    status st' = APP_ERROR ∧
    message st' = "Connectivity test failed" ∧
    heap st' = [ar] ∧
    ar_message ar = "api_key required" ∧
    trace st' = [EvProgress "Starting connectivity test"; EvPanAFapi "secret";
                 EvStatus APP_ERROR "Connectivity test failed";
                 EvProgress "Connectivity test failed"].
Proof.
  apply (test_connectivity_init_failure "api_key" (in_order service_no_client)
           (connector "test_asset_connectivity") "secret" "api_key required").
  - reflexivity.
  - reflexivity.
Defined.

Lemma test_connectivity_reports_quota_witness :
  ∃ (st' : Connector) (msg : string),
    _test_connectivity "api_key" (in_order service)
      (connector "test_asset_connectivity")
    = (Returned APP_SUCCESS, st') ∧
    status st' = APP_SUCCESS ∧
    message st' = "Connectivity test passed" ∧
    trace st' = [EvProgress "Starting connectivity test"; EvPanAFapi "secret";
                 EvProgress "Making a request to PAN AutoFocus"; EvExport;
                 EvProgress msg;
                 EvStatus APP_SUCCESS "Connectivity test passed";
                 EvProgress "Connectivity test passed"] ∧
    msg = "950/1000 daily points remaining".
Proof.
  destruct (test_connectivity_reports_quota "api_key" (in_order service)
              (connector "test_asset_connectivity") "secret" (ok quota)
              (JInt 950) (JInt 1000))
    as (st' & msg & Hrun & Hstatus & Hmessage & Htrace & _ & Hmsg).
  - apply connector_init. reflexivity.
  - reflexivity.
  - reflexivity.
  - reflexivity.
  - exists st', msg. split; [exact Hrun|]. split; [exact Hstatus|].
    split; [exact Hmessage|]. split; [exact Htrace|].
    apply (Hmsg 950%Z 1000%Z); reflexivity.
Defined.

Lemma test_connectivity_missing_key_witness :
  ∃ st' : Connector,
    _test_connectivity "api_key" (in_order service)
      (connector_no_key "test_asset_connectivity")
    = (Raised (KeyError "api_key"), st') ∧
    status st' = APP_SUCCESS ∧
    message st' = "idle" ∧
    trace st' = [EvProgress "Starting connectivity test"].
Proof.
  apply (test_connectivity_missing_key "api_key" (in_order service)
           (connector_no_key "test_asset_connectivity")).
  reflexivity.
Defined.

Lemma hunt_default_scope_witness :
  ∃ rest : list event,
    trace (_hunt_action "api_key" "scope" invalid_scope (in_order service)
             "alias.hash" "hash" {[ "hash" := "abc123" ]} (connector "hunt_file")).2
    = [EvPanAFapi "secret"; EvProgress "Querying AutoFocus";
       EvSearch (_construct_body "abc123" "alias.hash" 0 4000 "global")] ++ rest.
Proof.
  apply (hunt_default_scope "api_key" "scope" invalid_scope (in_order service)
           "alias.hash" "hash" {[ "hash" := "abc123" ]} (connector "hunt_file")
           "secret" "abc123").
  - apply connector_init. reflexivity.
  - reflexivity.
  - reflexivity.
Defined.

Lemma hunt_mapped_scope_witness :
  ∃ rest : list event,
    trace (_hunt_action "api_key" "scope" invalid_scope (in_order service)
             "alias.hash" "hash" (hunt_file_param "My Samples")
             (connector "hunt_file")).2
    = [EvPanAFapi "secret"; EvProgress "Querying AutoFocus";
       EvSearch (_construct_body "abc123" "alias.hash" 0 4000 "private")] ++ rest.
Proof.
  apply (hunt_mapped_scope "api_key" "scope" invalid_scope (in_order service)
           "alias.hash" "hash" (hunt_file_param "My Samples") (connector "hunt_file")
           "secret" "abc123" "My Samples" "private").
  - apply connector_init. reflexivity.
  - vm_compute. reflexivity.
  - apply (bool_decide_unpack _). vm_compute. exact I.
  - vm_compute. reflexivity.
Defined.

Lemma hunt_scope_checked_before_value_witness :
  (_hunt_action "api_key" "scope" invalid_scope (in_order service)
     "alias.hash" "hash" {[ "scope" := "bogus" ]} (connector "hunt_file")).1
  = Returned APP_ERROR.
Proof.
  destruct (hunt_scope_checked_before_value "api_key" "scope" invalid_scope
              (in_order service) "alias.hash" "hash" {[ "scope" := "bogus" ]}
              (connector "hunt_file") "secret") as [Hbad _].
  - apply connector_init. reflexivity.
  - reflexivity.
  - apply Hbad. vm_compute. reflexivity.
Defined.

Lemma get_report_success_witness :
  ∃ (st' : Connector) (ar : ActionResult),
    _get_report "api_key" "tag" (in_order service) {[ "tag" := "malware.bar" ]}
      (connector "get_report")
    = (Returned APP_SUCCESS, st') ∧
    action_results st' = [0] ∧
    heap st' = [ar] ∧
    ar_status ar = APP_SUCCESS ∧
    ar_message ar = "Successfully retrieved report info" ∧
    ar_data ar = [ReportData (detail "malware.bar")] ∧
    ar_summary ar = ∅ ∧
    trace st' = [EvPanAFapi "secret"; EvTag "malware.bar"].
Proof.
  apply (get_report_success "api_key" "tag" (in_order service)
           {[ "tag" := "malware.bar" ]} (connector "get_report") "secret" "malware.bar"
           (ok (detail "malware.bar"))).
  - apply connector_init. reflexivity.
  - reflexivity.
  - reflexivity.
  - reflexivity.
Defined.

Lemma get_report_lookup_failure_witness :
  ∃ (st' : Connector) (ar : ActionResult),
    _get_report "api_key" "tag" (in_order service_bar_missing)
      {[ "tag" := "malware.bar" ]} (connector "get_report")
    = (Returned APP_ERROR, st') ∧
    heap st' = [ar] ∧
    ar_status ar = APP_ERROR ∧
    ar_message ar = "404 Client Error: Not Found" ∧
    ar_data ar = [] ∧
    trace st' = [EvPanAFapi "secret"; EvTag "malware.bar"].
Proof.
  apply (get_report_lookup_failure "api_key" "tag" (in_order service_bar_missing)
           {[ "tag" := "malware.bar" ]} (connector "get_report") "secret"
           "malware.bar" "404 Client Error: Not Found"
           (http_error "404 Client Error: Not Found" JNull)).
  - apply connector_init. reflexivity.
  - reflexivity.
  - vm_compute. reflexivity.
  - reflexivity.
Defined.

Lemma get_report_missing_tag_witness :
  _get_report "api_key" "tag" (in_order service) ∅ (connector "get_report")
  = (Raised (KeyError "tag"),
     hunt_state (connector "get_report") (ActionResult_init ∅) [EvPanAFapi "secret"]).
Proof.
  apply (get_report_missing_tag "api_key" "tag" (in_order service) ∅
           (connector "get_report") "secret").
  - apply connector_init. reflexivity.
  - reflexivity.
Defined.

Lemma hunt_variant_searches_its_field_witness :
  ∃ rest : list event,
    trace (handle_action "api_key" "scope" "hash" "ip" "domain" "url" "tag"
             invalid_scope "test_asset_connectivity" (in_order service)
             {[ "domain" := "example.com" ]} (connector "hunt_domain")).2
    = [EvPanAFapi "secret"; EvProgress "Querying AutoFocus";
       EvSearch (_construct_body "example.com" "alias.domain" 0 4000 "global")] ++ rest.
Proof.
  apply (hunt_variant_searches_its_field "api_key" "scope" "hash" "ip" "domain" "url"
           "tag" invalid_scope "test_asset_connectivity" (in_order service)
           "hunt_domain" "alias.domain" "domain" {[ "domain" := "example.com" ]}
           (connector "hunt_domain") "secret" "global" "example.com").
  - apply (bool_decide_unpack _). vm_compute. exact I.
  - reflexivity.
  - discriminate.
  - apply connector_init. reflexivity.
  - vm_compute. reflexivity.
  - reflexivity.
Defined.

Lemma test_connectivity_raises_witness :
  ∃ st' : Connector,
    _test_connectivity "api_key" (in_order service_export_empty)
      (connector "test_asset_connectivity")
    = (Raised (KeyError "bucket_info"), st') ∧
    status st' = APP_ERROR ∧
    message st' = "" ∧
    trace st' = [EvProgress "Starting connectivity test"; EvPanAFapi "secret";
                 EvProgress "Making a request to PAN AutoFocus"; EvExport].
Proof.
  apply (test_connectivity_raises "api_key" (in_order service_export_empty)
           (connector "test_asset_connectivity") "secret" (KeyError "bucket_info")).
  - apply connector_init. reflexivity.
  - right. exists (ok (JDict ∅)). split; [reflexivity|]. split; reflexivity.
Defined.

Lemma hunt_raises_at_first_unsettled_witness :
  ∃ (st' : Connector) (ar : ActionResult),
    _hunt_action "api_key" "scope" invalid_scope (in_order service_bar_not_json)
      "alias.hash" "hash" (hunt_file_param "All Samples") (connector "hunt_file")
    = (Raised TypeError, st') ∧
    heap st' = [ar] ∧
    ar_data ar = omap (tag_record (in_order service_bar_not_json)) ["malware.foo"] ∧
    ar_summary ar = ∅ ∧
    trace st' = [EvPanAFapi "secret"; EvProgress "Querying AutoFocus";
                 EvSearch (hunt_body "alias.hash" "abc123" "global");
                 EvTag "malware.foo"; EvTag "malware.bar"].
Proof.
  destruct (hunt_raises_at_first_unsettled "api_key" "scope" invalid_scope
              (in_order service_bar_not_json) "alias.hash" "hash"
              (hunt_file_param "All Samples") (connector "hunt_file")
              "secret" "global" "abc123" ["malware.foo"] [] "malware.bar" TypeError)
    as (st' & ar & Hrun & _ & Hheap & Hdata & _ & Hsum & Htrace).
  - apply connector_init. reflexivity.
  - vm_compute. reflexivity.
  - vm_compute. reflexivity.
  - reflexivity.
  - vm_compute. reflexivity.
  - intros u Hu. apply elem_of_cons in Hu as [->|Hu]; [reflexivity|inversion Hu].
  - reflexivity.
  - exists st', ar. split; [exact Hrun|]. split; [exact Hheap|].
    split; [exact Hdata|]. split; [exact Hsum|exact Htrace].
Defined.

Lemma get_report_lookup_raises_witness :
  _get_report "api_key" "tag" (in_order service_bar_unreachable)
    {[ "tag" := "malware.bar" ]} (connector "get_report")
  = (Raised (ClientError "Connection refused"),
     hunt_state (connector "get_report") (ActionResult_init {[ "tag" := "malware.bar" ]})
       [EvPanAFapi "secret"; EvTag "malware.bar"]).
Proof.
  apply (get_report_lookup_raises "api_key" "tag" (in_order service_bar_unreachable)
           {[ "tag" := "malware.bar" ]} (connector "get_report") "secret"
           "malware.bar" (ClientError "Connection refused")).
  - apply connector_init. reflexivity.
  - reflexivity.
  - reflexivity.
Defined.

End MoreExamples.

End AutoFocusConnector.

(** ** [patch_requests] *)

Section PatchRequests.

Context {V R : Type}.

(** However it is called, a patched [requests.post] or [requests.get]
    hands the call to the function it replaced without a [url] keyword: a
    [url] keyword is taken out and passed as the only positional argument,
    the positional arguments given besides it are dropped; a call without a
    [url] keyword goes through as it is. *)
Theorem patched_call_has_no_url_keyword (requests : Requests V R)
    (args : list V) (kwargs : gmap string V) :
  ∃ (args' : list V) (kwargs' : gmap string V),
    requests_post (patch_requests requests) args kwargs
    = requests_post requests args' kwargs' ∧
    requests_get (patch_requests requests) args kwargs
    = requests_get requests args' kwargs' ∧
    kwargs' !! "url" = None ∧
    (∀ k : string, k ≠ "url" → kwargs' !! k = kwargs !! k) ∧
    match kwargs !! "url" with
    | Some url => args' = [url]
    | None => args' = args ∧ kwargs' = kwargs
    end.
Proof.
  unfold patch_requests, new_requests_post, new_requests_get. simpl.
  destruct (kwargs !! "url") as [url|] eqn:Hurl.
  - exists [url], (delete "url" kwargs). split_and!; try done.
    + apply lookup_delete_eq.
    + intros k Hk. by apply lookup_delete_ne.
  - by exists args, kwargs.
Qed.


End PatchRequests.
